(** * go-logz: leveled logging with formatters and composable output sinks

    A shallow embedding of package [logger] (the logger itself and its
    output constructors) together with the properties of its
    natural-language specification.

    Go values are modelled as follows.
    - [LogLevel] is Go's [int]; every use in the package is a comparison
      or a [switch], so it is an integer of [Z] (all statements hold for
      every integer, hence for every machine integer).
    - Go strings are byte strings: [string].
    - [map[string]interface{}] is a finite map from strings to dynamic
      values, with Go's distinction between the [nil] map and an empty one.
    - Functions with side effects ([OutputFunc], [FormatFunc], the methods
      of [Logger]) are state transformers over a [World] that holds the
      clock, the standard streams and the file system.  A function value is
      one that returns: a panicking or [nil] function value has no
      denotation here. *)

From Stdlib Require Import ZArith Lia Ascii.
From stdpp Require Import base option list strings gmap fin_maps sorting pretty.

Local Open Scope Z_scope.

(** ** Bytes and strings *)

(** The double quote, byte 34. *)
Definition dquote : ascii := "034"%char.

(** The backslash, byte 92. *)
Definition backslash : ascii := "092"%char.

(** The line feed, byte 10 (Go's ["\n"]). *)
Definition newline : string := String "010"%char EmptyString.

Definition quoted (s : string) : string :=
  String dquote (s +:+ String dquote EmptyString).

(** [strings.HasPrefix] and [strings.HasSuffix] as propositions. *)
Definition HasPrefix (s p : string) : Prop := ∃ rest, s = p +:+ rest.
Definition HasSuffix (s p : string) : Prop := ∃ front, s = front +:+ p.
Definition Contains (s sub : string) : Prop :=
  ∃ front rest, s = front +:+ sub +:+ rest.

Fixpoint string_forallb (p : ascii → bool) (s : string) : bool :=
  match s with
  | EmptyString => true
  | String c s' => p c && string_forallb p s'
  end.

Definition is_upper (c : ascii) : bool :=
  let n := N_of_ascii c in ((65 <=? n) && (n <=? 90))%N.

(** ** Severity levels *)

Definition LogLevel : Type := Z.

Definition Emergency : LogLevel := 0.
Definition Alert : LogLevel := 1.
Definition Critical : LogLevel := 2.
Definition Error : LogLevel := 3.
Definition Warning : LogLevel := 4.
Definition Notice : LogLevel := 5.
Definition Info : LogLevel := 6.
Definition Debug : LogLevel := 7.

(** [func (l LogLevel) String() string] *)
Definition LogLevel_String (l : LogLevel) : string :=
  if l =? Emergency then "EMERGENCY"
  else if l =? Alert then "ALERT"
  else if l =? Critical then "CRITICAL"
  else if l =? Error then "ERROR"
  else if l =? Warning then "WARNING"
  else if l =? Notice then "NOTICE"
  else if l =? Info then "INFO"
  else if l =? Debug then "DEBUG"
  else "UNKNOWN".

(** ** Output formats *)

Definition LogOutput : Type := string.

Definition StringOutput : LogOutput := "string".
Definition JSONOutput : LogOutput := "json".

(** ** Dynamic values and context maps *)

(** The values of [interface{}] that a context carries: [nil], booleans,
    integers, strings, slices of such values, and channels as the
    representative of the kinds that [encoding/json] cannot encode. *)
#[local] Unset Elimination Schemes.
Inductive value : Type :=
| VNil
| VBool (b : bool)
| VInt (n : Z)
| VString (s : string)
| VSlice (vs : list value)
| VChan (id : nat).
#[local] Set Elimination Schemes.

(** A [map[string]interface{}]: [None] is the [nil] map. *)
Definition InfoMap : Type := option (gmap string value).

(** Reading a map, [nil] or not: its entries. *)
Definition entries (m : InfoMap) : gmap string value := default ∅ m.

(** [len(m)] *)
Definition len (m : InfoMap) : nat := size (entries m).

(** [make(map[string]interface{})] *)
Definition make_map : InfoMap := Some ∅.

(** ** [encoding/json] *)

(** The part of [json.Marshal] that the logger exercises, for the values
    above (a [VSlice] is a slice that is not [nil]).  Strings and map keys
    are written as [encoding/json] writes them: the string is read rune by
    rune as [utf8.DecodeRuneInString] does; below 128 the encoder escapes
    the quote, the backslash, control bytes and the HTML-sensitive bytes
    (Marshal escapes HTML); a byte that does not start a valid UTF-8
    sequence is written as the escape of U+FFFD; U+2028 and U+2029 are
    written as escapes; every other rune is copied. *)
Module json.

Definition hex (n : N) : ascii :=
  ascii_of_N (if (n <? 10)%N then 48 + n else 87 + n)%N.

Definition u00 (n : N) : string :=
  String backslash
    (String "u" (String "0" (String "0"
      (String (hex (n / 16)%N) (String (hex (n mod 16)%N) EmptyString))))).

(** The encoding of a byte below 128. *)
Definition escape (c : ascii) : string :=
  let n := N_of_ascii c in
  if (n =? 34)%N || (n =? 92)%N then String backslash (String c EmptyString)
  else if (n =? 8)%N then String backslash "b"
  else if (n =? 12)%N then String backslash "f"
  else if (n =? 10)%N then String backslash "n"
  else if (n =? 13)%N then String backslash "r"
  else if (n =? 9)%N then String backslash "t"
  else if (n <? 32)%N || (n =? 60)%N || (n =? 62)%N || (n =? 38)%N then u00 n
  else String c EmptyString.

(** UTF-8 as package [utf8] accepts it: a continuation byte, and the
    leading byte of a sequence of two, three and four bytes with the range
    that it asks of the second byte. *)
Definition cont (b : N) : bool := ((128 <=? b) && (b <=? 191))%N.

Definition lead2 (b0 : N) : bool := ((194 <=? b0) && (b0 <=? 223))%N.

Definition lead3 (b0 b1 : N) : bool :=
  (((b0 =? 224) && (160 <=? b1) && (b1 <=? 191))
   || ((((225 <=? b0) && (b0 <=? 236)) || (b0 =? 238) || (b0 =? 239))
       && cont b1)
   || ((b0 =? 237) && (128 <=? b1) && (b1 <=? 159)))%N.

Definition lead4 (b0 b1 : N) : bool :=
  (((b0 =? 240) && (144 <=? b1) && (b1 <=? 191))
   || (((241 <=? b0) && (b0 <=? 243)) && cont b1)
   || ((b0 =? 244) && (128 <=? b1) && (b1 <=? 143)))%N.

(** What the encoder meets at a position of the string: a byte below 128,
    the bytes of a valid rune from 128 on, or a byte that starts no valid
    sequence ([utf8.RuneError] of width one). *)
Inductive chunk : Type :=
| Byte (c : ascii)
| Rune (bytes : string)
| Bad (c : ascii).

(** The string as the loop of the encoder walks through it. *)
Fixpoint runes (s : string) : list chunk :=
  match s with
  | EmptyString => []
  | String c0 s1 =>
      if (N_of_ascii c0 <? 128)%N then Byte c0 :: runes s1
      else
        match s1 with
        | EmptyString => Bad c0 :: runes s1
        | String c1 s2 =>
            if lead2 (N_of_ascii c0) && cont (N_of_ascii c1)
            then Rune (String c0 (String c1 EmptyString)) :: runes s2
            else
              match s2 with
              | EmptyString => Bad c0 :: runes s1
              | String c2 s3 =>
                  if lead3 (N_of_ascii c0) (N_of_ascii c1)
                     && cont (N_of_ascii c2)
                  then Rune (String c0 (String c1 (String c2 EmptyString)))
                       :: runes s3
                  else
                    match s3 with
                    | EmptyString => Bad c0 :: runes s1
                    | String c3 s4 =>
                        if lead4 (N_of_ascii c0) (N_of_ascii c1)
                           && cont (N_of_ascii c2) && cont (N_of_ascii c3)
                        then Rune (String c0 (String c1 (String c2
                                     (String c3 EmptyString))))
                             :: runes s4
                        else Bad c0 :: runes s1
                    end
              end
        end
  end.

(** The bytes of U+2028, U+2029 and U+FFFD. *)
Definition lineSeparator : string :=
  String (ascii_of_N 226) (String (ascii_of_N 128)
    (String (ascii_of_N 168) EmptyString)).
Definition paragraphSeparator : string :=
  String (ascii_of_N 226) (String (ascii_of_N 128)
    (String (ascii_of_N 169) EmptyString)).
Definition replacement : string :=
  String (ascii_of_N 239) (String (ascii_of_N 191)
    (String (ascii_of_N 189) EmptyString)).

Definition encodeChunk (ch : chunk) : string :=
  match ch with
  | Byte c => escape c
  | Rune bytes =>
      if String.eqb bytes lineSeparator then String backslash "u2028"
      else if String.eqb bytes paragraphSeparator then String backslash "u2029"
      else bytes
  | Bad _ => String backslash "ufffd"
  end.

Definition escapeAll (s : string) : string :=
  foldr (λ ch acc, encodeChunk ch +:+ acc) EmptyString (runes s).

(** [utf8.ValidString], and the string that a JSON string written by the
    encoder denotes: the input with U+FFFD for each byte that starts no
    valid sequence. *)
Definition ValidString (s : string) : bool :=
  forallb (λ ch, match ch with Bad _ => false | _ => true end) (runes s).

Definition coerceChunk (ch : chunk) : string :=
  match ch with
  | Byte c => String c EmptyString
  | Rune bytes => bytes
  | Bad _ => replacement
  end.

Definition coerceUTF8 (s : string) : string :=
  foldr (λ ch acc, coerceChunk ch +:+ acc) EmptyString (runes s).

(** The bytes that a chunk stands for in the input, and what holds of the
    chunks that [runes] yields. *)
Definition chunkBytes (ch : chunk) : string :=
  match ch with
  | Byte c => String c EmptyString
  | Rune bytes => bytes
  | Bad c => String c EmptyString
  end.

Definition wellFormed (ch : chunk) : Prop :=
  match ch with
  | Byte c => (N_of_ascii c < 128)%N
  | Rune bytes =>
      string_forallb (λ c, (128 <=? N_of_ascii c)%N) bytes = true
  | Bad _ => True
  end.

(** Reading a JSON string (RFC 8259): the value of a hexadecimal digit,
    the UTF-8 bytes of a code point of the basic plane, the characters of
    the two-character escapes, and the body of a string up to its closing
    quote, with what follows it.  Escapes of surrogates, which the encoder
    never writes, are not read. *)
Definition hexVal (c : ascii) : option N :=
  let n := N_of_ascii c in
  if ((48 <=? n) && (n <=? 57))%N then Some (n - 48)%N
  else if ((97 <=? n) && (n <=? 102))%N then Some (n - 87)%N
  else if ((65 <=? n) && (n <=? 70))%N then Some (n - 55)%N
  else None.

Definition utf8Bytes (cp : N) : string :=
  if (cp <? 128)%N then String (ascii_of_N cp) EmptyString
  else if (cp <? 2048)%N then
    String (ascii_of_N (192 + cp / 64)%N)
      (String (ascii_of_N (128 + cp mod 64)%N) EmptyString)
  else
    String (ascii_of_N (224 + cp / 4096)%N)
      (String (ascii_of_N (128 + (cp / 64) mod 64)%N)
        (String (ascii_of_N (128 + cp mod 64)%N) EmptyString)).

Definition simpleEscape (n : N) : option ascii :=
  if ((n =? 34) || (n =? 92) || (n =? 47))%N then Some (ascii_of_N n)
  else if (n =? 98)%N then Some (ascii_of_N 8)
  else if (n =? 102)%N then Some (ascii_of_N 12)
  else if (n =? 110)%N then Some (ascii_of_N 10)
  else if (n =? 114)%N then Some (ascii_of_N 13)
  else if (n =? 116)%N then Some (ascii_of_N 9)
  else None.

Definition prepend (p : string) (r : option (string * string))
    : option (string * string) :=
  match r with
  | Some (body, tail) => Some (p +:+ body, tail)
  | None => None
  end.

Fixpoint decodeBody (s : string) : option (string * string) :=
  match s with
  | EmptyString => None
  | String c rest =>
      if (N_of_ascii c =? 34)%N then Some (EmptyString, rest)
      else if (N_of_ascii c =? 92)%N then
        match rest with
        | EmptyString => None
        | String e rest1 =>
            if (N_of_ascii e =? 117)%N then
              match rest1 with
              | String h1 (String h2 (String h3 (String h4 rest2))) =>
                  match hexVal h1, hexVal h2, hexVal h3, hexVal h4 with
                  | Some a, Some b, Some c', Some d =>
                      let cp := (((a * 16 + b) * 16 + c') * 16 + d)%N in
                      if ((55296 <=? cp) && (cp <=? 57343))%N then None
                      else prepend (utf8Bytes cp) (decodeBody rest2)
                  | _, _, _, _ => None
                  end
              | _ => None
              end
            else
              match simpleEscape (N_of_ascii e) with
              | Some ch => prepend (String ch EmptyString) (decodeBody rest1)
              | None => None
              end
        end
      else if (N_of_ascii c <? 32)%N then None
      else prepend (String c EmptyString) (decodeBody rest)
  end.

(** The string that a JSON string literal denotes. *)
Definition decodeString (s : string) : option string :=
  match s with
  | EmptyString => None
  | String q body =>
      if (N_of_ascii q =? 34)%N then
        match decodeBody body with
        | Some (b, EmptyString) => Some b
        | _ => None
        end
      else None
  end.

Definition encodeString (s : string) : string := quoted (escapeAll s).

(** [strings.Join] *)
Fixpoint join (sep : string) (l : list string) : string :=
  match l with
  | [] => EmptyString
  | [x] => x
  | x :: rest => x +:+ sep +:+ join sep rest
  end.

(** The encoding of one value, [None] when it is unsupported. *)
Fixpoint encodeValue (v : value) : option string :=
  match v with
  | VNil => Some "null"
  | VBool b => Some (if b then "true" else "false")
  | VInt n => Some (pretty n)
  | VString s => Some (encodeString s)
  | VSlice vs =>
      (fix elems (l : list value) : option (list string) :=
         match l with
         | [] => Some []
         | x :: l' =>
             match encodeValue x, elems l' with
             | Some s, Some ss => Some (s :: ss)
             | _, _ => None
             end
         end) vs ≫= λ ss, Some ("[" +:+ join "," ss +:+ "]")
  | VChan _ => None
  end.

(** Map keys are written in increasing byte order. *)
Definition key_le (a b : string * value) : Prop := String.leb a.1 b.1.

#[global] Instance key_le_dec a b : Decision (key_le a b).
Proof. unfold key_le. apply _. Defined.

Definition sortedEntries (m : gmap string value) : list (string * value) :=
  merge_sort key_le (map_to_list m).

Definition encodeField (kv : string * value) : option string :=
  s ← encodeValue kv.2; Some (encodeString kv.1 +:+ ":" +:+ s).

(** One member of an object, as text. *)
Definition member (k venc : string) : string :=
  encodeString k +:+ ":" +:+ venc.

(** The encoding of a non-nil map: a JSON object. *)
Definition encodeObject (m : gmap string value) : option string :=
  fields ← mapM encodeField (sortedEntries m);
  Some ("{" +:+ join "," fields +:+ "}").

(** [json.Marshal] of a [map[string]interface{}]; [None] is the error
    result (with no bytes). *)
Definition Marshal (m : InfoMap) : option string :=
  match m with
  | None => Some "null"
  | Some m => encodeObject m
  end.

(** [string(bytes)] of a Marshal call whose error is discarded. *)
Definition text (r : option string) : string := default EmptyString r.

End json.

(** ** The world and the effects of the package *)

Inductive Errno : Type := ENOENT | EACCES | EISDIR.

(** What instrumented callbacks record: a sink or a formatter, named by a
    number, notes each call it receives with its arguments. *)
Inductive Event : Type :=
| Called (id : nat) (level : LogLevel) (message : string)
| Formatted (id : nat) (level : LogLevel) (message : string) (info : InfoMap).

(** - [clock n] is the text that
      [time.Now().UTC().Format(time.RFC3339Nano)] yields at the [n]-th
      reading of the clock, and [reads] counts the readings so far;
    - [stdout] and [stderr] are the bytes written to the standard streams;
    - [files] maps the path of each regular file to its contents, and
      [blocked] gives, for the paths that cannot be opened or created for
      appending, the reason why;
    - [opened] lists the paths of the open calls made so far;
    - [events] is the record kept by instrumented callbacks. *)
Record World : Type := mkWorld {
  clock : nat → string;
  reads : nat;
  stdout : string;
  stderr : string;
  files : gmap string string;
  blocked : gmap string Errno;
  opened : list string;
  events : list Event }.

Definition IO (A : Type) : Type := World → A * World.

#[global] Instance IO_ret : MRet IO := λ A a w, (a, w).
#[global] Instance IO_bind : MBind IO :=
  λ A B f m w, let '(a, w') := m w in f a w'.

(** The world after a computation, and its result. *)
Definition exec {A} (m : IO A) (w : World) : World := (m w).2.
Definition eval {A} (m : IO A) (w : World) : A := (m w).1.

(** [for _, x := range l { body(x) }] *)
Fixpoint forEach {A} (l : list A) (body : A → IO unit) : IO unit :=
  match l with
  | [] => mret tt
  | x :: rest => _ ← body x; forEach rest body
  end.

(** [time.Now().UTC().Format(time.RFC3339Nano)] *)
Definition timestampNow : IO string := λ w,
  (clock w (reads w),
   mkWorld (clock w) (S (reads w)) (stdout w) (stderr w) (files w)
           (blocked w) (opened w) (events w)).

(** [io.Writer]: the [Write] method (its results are discarded by every
    caller in the package). *)
Record Writer : Type := { Write : string → IO unit }.

Definition os_Stdout : Writer :=
  {| Write s w :=
       (tt, mkWorld (clock w) (reads w) (stdout w +:+ s) (stderr w) (files w)
                    (blocked w) (opened w) (events w)) |}.

Definition os_Stderr : Writer :=
  {| Write s w :=
       (tt, mkWorld (clock w) (reads w) (stdout w) (stderr w +:+ s) (files w)
                    (blocked w) (opened w) (events w)) |}.

(** An [*os.File] opened for appending to [name]: every write lands at the
    end of the file. *)
Definition os_File (name : string) : Writer :=
  {| Write s w :=
       (tt, mkWorld (clock w) (reads w) (stdout w) (stderr w)
                    (alter (λ old, old +:+ s) name (files w))
                    (blocked w) (opened w) (events w)) |}.

(** [fmt.Fprint(w, s)] and [fmt.Fprintln(w, s)] for one string. *)
Definition Fprint (wr : Writer) (s : string) : IO unit := Write wr s.
Definition Fprintln (wr : Writer) (s : string) : IO unit :=
  Write wr (s +:+ newline).

(** Go's [error] values that the package meets or builds. *)
Inductive error : Type :=
| PathError (op path : string) (e : Errno)
| Errorf (msg : string) (wrapped : error).

Definition Errno_Error (e : Errno) : string :=
  match e with
  | ENOENT => "no such file or directory"
  | EACCES => "permission denied"
  | EISDIR => "is a directory"
  end.

Definition error_Error (e : error) : string :=
  match e with
  | PathError op path e => op +:+ " " +:+ path +:+ ": " +:+ Errno_Error e
  | Errorf msg _ => msg
  end.

(** [os.OpenFile(name, os.O_CREATE|os.O_WRONLY|os.O_APPEND, 0666)]: one
    open call; it fails on a blocked path, and otherwise yields the file,
    created empty when it did not exist and left as it is when it did.
    Of the two results of the Go function exactly one is not [nil]: the
    file ([inl]) or the error ([inr]). *)
Definition OpenFileAppend (name : string) : IO (Writer + error) :=
  λ w,
    match blocked w !! name with
    | Some e =>
        (inr (PathError "open" name e),
         mkWorld (clock w) (reads w) (stdout w) (stderr w) (files w)
                 (blocked w) (opened w ++ [name]) (events w))
    | None =>
        (inl (os_File name),
         mkWorld (clock w) (reads w) (stdout w) (stderr w)
                 (match files w !! name with
                  | Some _ => files w
                  | None => <[name := EmptyString]> (files w)
                  end)
                 (blocked w) (opened w ++ [name]) (events w))
    end.

(** ** The logger *)

(** [type OutputFunc func(level LogLevel, message string)] *)
Definition OutputFunc : Type := LogLevel → string → IO unit.

(** [type FormatFunc func(level LogLevel, message string,
    additionalInfo map[string]interface{}) string] *)
Definition FormatFunc : Type := LogLevel → string → InfoMap → IO string.

(** [type LogOptions struct]; a function field is [None] when it is [nil],
    and a field that the caller leaves out has Go's zero value: level [0],
    the empty string, [nil], no outputs. *)
Module LogOptions.
Record t : Type := mk {
  Level : LogLevel;
  Format : LogOutput;
  FormatCallback : option FormatFunc;
  Outputs : list OutputFunc;
  Prefix : string }.

(** [LogOptions{}] *)
Definition zero : t := mk 0 EmptyString None [] EmptyString.
End LogOptions.

(** [type Logger struct] *)
Module Logger.
Record t : Type := mk {
  level : LogLevel;
  format : LogOutput;
  formatCallback : option FormatFunc;
  outputs : list OutputFunc;
  prefix : string }.

Definition set_level (v : LogLevel) (l : t) : t :=
  mk v (format l) (formatCallback l) (outputs l) (prefix l).
Definition set_format (v : LogOutput) (l : t) : t :=
  mk (level l) v (formatCallback l) (outputs l) (prefix l).
Definition set_outputs (v : list OutputFunc) (l : t) : t :=
  mk (level l) (format l) (formatCallback l) v (prefix l).
End Logger.

(** [func defaultConsoleOutput(level LogLevel, message string)] *)
Definition defaultConsoleOutput : OutputFunc := λ level message,
  if level <=? Error then Fprint os_Stderr (message +:+ newline)
  else Fprint os_Stdout (message +:+ newline).

(** [func NewLogger(options LogOptions) *Logger] *)
Definition NewLogger (options : LogOptions.t) : Logger.t :=
  let logger :=
    Logger.mk (LogOptions.Level options) (LogOptions.Format options)
              (LogOptions.FormatCallback options) (LogOptions.Outputs options)
              (LogOptions.Prefix options) in
  let logger :=
    if (Logger.level logger <? Emergency) || (Logger.level logger >? Debug)
    then Logger.set_level Info logger else logger in
  let logger :=
    if String.eqb (Logger.format logger) EmptyString
    then Logger.set_format StringOutput logger else logger in
  let logger :=
    if (length (Logger.outputs logger) =? 0)%nat
    then Logger.set_outputs [defaultConsoleOutput] logger else logger in
  logger.

(** The [range] loop that copies the context into [logData], over the
    entries in the order [kvs] in which the iteration meets them. *)
Definition mergeInfo (kvs : list (string * value))
    (logData : gmap string value) : gmap string value :=
  foldl (λ acc kv, <[kv.1 := kv.2]> acc) logData kvs.

(** The map literal of the JSON branch and the conditional [prefix]. *)
Definition baseData (prefix timestamp logLevel message : string)
    : gmap string value :=
  let logData : gmap string value :=
    <["timestamp" := VString timestamp]>
      (<["level" := VString logLevel]>
         (<["message" := VString message]> ∅)) in
  if String.eqb prefix EmptyString then logData
  else <["prefix" := VString prefix]> logData.

(** [logData] as the JSON branch hands it to [json.Marshal]. *)
Definition jsonData (prefix timestamp logLevel message : string)
    (additionalInfo : InfoMap) : gmap string value :=
  mergeInfo (map_to_list (entries additionalInfo))
            (baseData prefix timestamp logLevel message).

(** The string branch, after the clock has been read. *)
Definition textLine (prefix timestamp logLevel message : string)
    (additionalInfo : InfoMap) : string :=
  let baseMessage :=
    if String.eqb prefix EmptyString
    then "[" +:+ timestamp +:+ "] [" +:+ logLevel +:+ "]"
    else "[" +:+ prefix +:+ "] [" +:+ timestamp +:+ "] [" +:+ logLevel +:+ "]" in
  let baseMessage :=
    if (0 <? len additionalInfo)%nat
    then baseMessage +:+ (" " +:+ json.text (json.Marshal additionalInfo))
    else baseMessage in
  baseMessage +:+ " " +:+ message.

(** [func (l *Logger) formatMessage(level LogLevel, message string,
    additionalInfo map[string]interface{}) string] *)
Definition formatMessage (l : Logger.t) (level : LogLevel) (message : string)
    (additionalInfo : InfoMap) : IO string :=
  match Logger.formatCallback l with
  | Some formatCallback => formatCallback level message additionalInfo
  | None =>
      timestamp ← timestampNow;
      let logLevel := LogLevel_String level in
      if String.eqb (Logger.format l) JSONOutput then
        mret (json.text (json.Marshal
                (Some (jsonData (Logger.prefix l) timestamp logLevel message
                                additionalInfo))))
      else
        mret (textLine (Logger.prefix l) timestamp logLevel message
                       additionalInfo)
  end.

(** [func (l *Logger) shouldLog(level LogLevel) bool] *)
Definition shouldLog (l : Logger.t) (level : LogLevel) : bool :=
  level <=? Logger.level l.

(** [func (l *Logger) outputMessage(level LogLevel, message string)] *)
Definition outputMessage (l : Logger.t) (level : LogLevel) (message : string)
    : IO unit :=
  forEach (Logger.outputs l) (λ output, output level message).

(** [func (l *Logger) Log(level LogLevel, message string,
    additionalInfo ...map[string]interface{})]; the variadic argument is
    the list of the maps that the caller passes. *)
Definition Log (l : Logger.t) (level : LogLevel) (message : string)
    (additionalInfo : list InfoMap) : IO unit :=
  if shouldLog l level then
    let info :=
      match additionalInfo with
      | first :: _ => first
      | [] => make_map
      end in
    formattedMessage ← formatMessage l level message info;
    outputMessage l level formattedMessage
  else mret tt.

(** The per-severity methods [Emergency], ..., [Debug] of [*Logger]. *)
Definition Logger_Emergency (l : Logger.t) message additionalInfo : IO unit :=
  Log l Emergency message additionalInfo.
Definition Logger_Alert (l : Logger.t) message additionalInfo : IO unit :=
  Log l Alert message additionalInfo.
Definition Logger_Critical (l : Logger.t) message additionalInfo : IO unit :=
  Log l Critical message additionalInfo.
Definition Logger_Error (l : Logger.t) message additionalInfo : IO unit :=
  Log l Error message additionalInfo.
Definition Logger_Warning (l : Logger.t) message additionalInfo : IO unit :=
  Log l Warning message additionalInfo.
Definition Logger_Notice (l : Logger.t) message additionalInfo : IO unit :=
  Log l Notice message additionalInfo.
Definition Logger_Info (l : Logger.t) message additionalInfo : IO unit :=
  Log l Info message additionalInfo.
Definition Logger_Debug (l : Logger.t) message additionalInfo : IO unit :=
  Log l Debug message additionalInfo.

(** ** Output constructors *)

(** [func ConsoleOutput() OutputFunc] *)
Definition ConsoleOutput : OutputFunc := λ level message,
  if level <=? Error then Fprintln os_Stderr message
  else Fprintln os_Stdout message.

(** [func FileOutput(filename string) (OutputFunc, error)] *)
Definition FileOutput (filename : string)
    : IO (option OutputFunc * option error) :=
  r ← OpenFileAppend filename;
  match r with
  | inr err =>
      mret (None,
            Some (Errorf ("failed to open log file " +:+ filename +:+ ": "
                          +:+ error_Error err) err))
  | inl file =>
      mret (Some (λ (level : LogLevel) message, Fprintln file message), None)
  end.

(** [func WriterOutput(writer io.Writer) OutputFunc] *)
Definition WriterOutput (writer : Writer) : OutputFunc := λ level message,
  Fprintln writer message.

(** [func SplitOutput(errorWriter, infoWriter io.Writer) OutputFunc] *)
Definition SplitOutput (errorWriter infoWriter : Writer) : OutputFunc :=
  λ level message,
    if level <=? Error then Fprintln errorWriter message
    else Fprintln infoWriter message.

(** [func MultiOutput(outputs ...OutputFunc) OutputFunc] *)
Definition MultiOutput (outputs : list OutputFunc) : OutputFunc :=
  λ level message, forEach outputs (λ output, output level message).

(** [func LevelFilterOutput(minLevel LogLevel, output OutputFunc) OutputFunc] *)
Definition LevelFilterOutput (minLevel : LogLevel) (output : OutputFunc)
    : OutputFunc :=
  λ level message,
    if level <=? minLevel then output level message else mret tt.

(** ** Instrumented callbacks *)

Definition record (e : Event) : IO unit := λ w,
  (tt, mkWorld (clock w) (reads w) (stdout w) (stderr w) (files w)
               (blocked w) (opened w) (events w ++ [e])).

(** A sink [output] under observation: the call is noted, then passed on. *)
Definition observed (id : nat) (output : OutputFunc) : OutputFunc :=
  λ level message, _ ← record (Called id level message); output level message.

(** The formatter number [id] that computes [f] and notes each call. *)
Definition probeFormat (id : nat) (f : LogLevel → string → InfoMap → string)
    : FormatFunc :=
  λ level message info,
    _ ← record (Formatted id level message info); mret (f level message info).

(** The sink calls on record, in order: sink, level and message. *)
Definition calls (es : list Event) : list (nat * LogLevel * string) :=
  omap (λ e, match e with
             | Called id level message => Some (id, level, message)
             | Formatted _ _ _ _ => None
             end) es.

(** The sinks [outs] under observation, each under its position. *)
Definition instrument (outs : list OutputFunc) : list OutputFunc :=
  imap observed outs.

(** A computation that writes nothing on record: a callback that is not
    itself instrumented. *)
Definition silent {A} (m : IO A) : Prop :=
  ∀ w, events (exec m w) = events w.

Definition silentSink (output : OutputFunc) : Prop :=
  ∀ level message, silent (output level message).

(** A computation that leaves the record of sink calls as it is. *)
Definition quiet {A} (m : IO A) : Prop :=
  ∀ w, calls (events (exec m w)) = calls (events w).

Definition quietFormat (f : FormatFunc) : Prop :=
  ∀ level message info, quiet (f level message info).

(** The context that [Log] hands to the formatter. *)
Definition infoOf (additionalInfo : list InfoMap) : InfoMap :=
  match additionalInfo with
  | first :: _ => first
  | [] => make_map
  end.

(** A world to start from: nothing written, no file, and a clock that
    shows [now] at every reading. *)
Definition initial (now : string) : World :=
  mkWorld (λ _, now) 0 EmptyString EmptyString ∅ ∅ [] [].

(** ** Loggers for the examples, and the wording of the specification *)

(** A logger for the examples: threshold [Error], text format, prefix
    [svc], and the console sink under observation. *)
Definition svcLogger : Logger.t :=
  Logger.mk Error StringOutput None (instrument [ConsoleOutput]) "svc".

(** A logger for the examples in JSON mode, without a prefix. *)
Definition jsonLogger : Logger.t :=
  Logger.mk Info JSONOutput None (instrument [ConsoleOutput]) EmptyString.

(** A logger with the custom format callback of the package's test
    [TestCustomFormatCallback]. *)
Definition customLogger : Logger.t :=
  Logger.mk Debug EmptyString
            (Some (λ _ message _, mret ("CUSTOM: " +:+ message)))
            (instrument [ConsoleOutput]) EmptyString.

(** The text line as the specification words it: four segments in square
    brackets, the first and the last of them optional, then the message. *)
Definition statedTextLine (prefix timestamp levelName contextJSON message : string)
    (hasContext : bool) : string :=
  (if bool_decide (prefix = EmptyString) then EmptyString
   else "[" +:+ prefix +:+ "] ")
  +:+ "[" +:+ timestamp +:+ "] [" +:+ levelName +:+ "] "
  +:+ (if hasContext then "[" +:+ contextJSON +:+ "] " else EmptyString)
  +:+ message.

(** ** Callers and auxiliary notions *)

(** The sink that [examples/basic/main.go] writes by hand for its file
    logger, over the two sinks [stderrFile] and [stdoutFile] that it got
    from [FileOutput]. *)
Definition exampleFileSink (stderrFile stdoutFile : OutputFunc) : OutputFunc :=
  λ level message,
    if level <=? Error then stderrFile level message
    else stdoutFile level message.

(** The file logger of [examples/basic/main.go]. *)
Definition exampleFileLogger (stderrFile stdoutFile : OutputFunc) : Logger.t :=
  NewLogger (LogOptions.mk Debug StringOutput None
               [exampleFileSink stderrFile stdoutFile] "my-app").

(** The options that hold the fields of a logger. *)
Definition optionsOf (l : Logger.t) : LogOptions.t :=
  LogOptions.mk (Logger.level l) (Logger.format l) (Logger.formatCallback l)
                (Logger.outputs l) (Logger.prefix l).

(** The bytes of a sequence of lines, each closed by a newline. *)
Fixpoint unlines (ms : list string) : string :=
  match ms with
  | [] => EmptyString
  | m :: rest => m +:+ newline +:+ unlines rest
  end.

(** A sink that leaves the clock alone. *)
Definition timelessSink (output : OutputFunc) : Prop :=
  ∀ level message w,
    clock (exec (output level message) w) = clock w
    ∧ reads (exec (output level message) w) = reads w.

(** One call of [Log], as data: level, message and the maps passed. *)
Definition LogCall : Type := LogLevel * string * list InfoMap.

Definition runCalls (l : Logger.t) (cs : list LogCall) : IO unit :=
  forEach cs (λ c, Log l c.1.1 c.1.2 c.2).

(** * Properties *)

(** ** The state monad *)

Lemma exec_bind {A B} (m : IO A) (k : A → IO B) (w : World) :
  exec (m ≫= k) w = exec (k (eval m w)) (exec m w).
Proof. unfold exec, eval, mbind, IO_bind. by destruct (m w). Qed.

Lemma run_bind {A B} (m : IO A) (k : A → IO B) (w : World) :
  (m ≫= k) w = k (eval m w) (exec m w).
Proof. unfold exec, eval, mbind, IO_bind. by destruct (m w). Qed.

Lemma exec_ret {A} (a : A) (w : World) : exec (mret a) w = w.
Proof. done. Qed.

(** ** Records of calls *)

Lemma calls_app (es1 es2 : list Event) :
  calls (es1 ++ es2) = calls es1 ++ calls es2.
Proof. apply omap_app. Qed.

Lemma calls_Called_from (outs : list OutputFunc) (k : nat) (level : LogLevel)
    (message : string) :
  calls (imap (λ i _, Called (k + i) level message) outs)
  = imap (λ i _, ((k + i)%nat, level, message)) outs.
Proof.
  revert k. induction outs as [|x outs IH]; intros k; [done|].
  rewrite !imap_cons. unfold calls at 1. simpl. f_equal.
  rewrite <- (imap_ext (λ i _, ((S k + i)%nat, level, message)))
    by (intros i y _; unfold compose; by rewrite Nat.add_succ_r).
  rewrite <- IH. unfold calls. f_equal.
  apply imap_ext. intros i y _. unfold compose. by rewrite Nat.add_succ_r.
Qed.

Lemma calls_Called (outs : list OutputFunc) (level : LogLevel) (message : string) :
  calls (imap (λ i _, Called i level message) outs)
  = imap (λ i _, (i, level, message)) outs.
Proof. apply (calls_Called_from outs 0). Qed.

Lemma events_record (e : Event) (w : World) :
  events (exec (record e) w) = events w ++ [e].
Proof. done. Qed.

Lemma silent_quiet {A} (m : IO A) : silent m → quiet m.
Proof. intros H w. by rewrite H. Qed.

Lemma silent_ret {A} (a : A) : silent (mret a : IO A).
Proof. by intros w. Qed.

Lemma silent_bind {A B} (m : IO A) (k : A → IO B) :
  silent m → (∀ a, silent (k a)) → silent (m ≫= k).
Proof. intros Hm Hk w. by rewrite exec_bind, Hk, Hm. Qed.

Lemma silent_forEach {A} (l : list A) (body : A → IO unit) :
  (∀ x, x ∈ l → silent (body x)) → silent (forEach l body).
Proof.
  induction l as [|x l IH]; intros Hb; simpl; [apply silent_ret|].
  apply silent_bind; [apply Hb; left|].
  intros _. apply IH. intros y Hy. apply Hb. by right.
Qed.

Lemma silent_timestampNow : silent timestampNow.
Proof. by intros w. Qed.

Lemma silent_Fprintln_std (s : string) :
  silent (Fprintln os_Stdout s) ∧ silent (Fprintln os_Stderr s).
Proof. by split; intros w. Qed.

Lemma silent_ConsoleOutput : silentSink ConsoleOutput.
Proof.
  intros level message w. unfold ConsoleOutput.
  destruct (level <=? Error); apply silent_Fprintln_std.
Qed.

Lemma silent_defaultConsoleOutput : silentSink defaultConsoleOutput.
Proof.
  intros level message w. unfold defaultConsoleOutput, Fprint.
  by destruct (level <=? Error).
Qed.

Lemma quiet_probeFormat id f : quietFormat (probeFormat id f).
Proof.
  intros level message info w. unfold probeFormat.
  rewrite exec_bind, exec_ret, events_record, calls_app. simpl.
  by rewrite app_nil_r.
Qed.

Lemma quiet_formatMessage (l : Logger.t) :
  (∀ cb, Logger.formatCallback l = Some cb → quietFormat cb) →
  ∀ level message info, quiet (formatMessage l level message info).
Proof.
  intros Hcb level message info. unfold formatMessage.
  destruct (Logger.formatCallback l) as [cb|]; [by apply Hcb|].
  apply silent_quiet, silent_bind; [apply silent_timestampNow|].
  intros ts. destruct (String.eqb _ _); apply silent_ret.
Qed.

Lemma events_observed (id : nat) (output : OutputFunc) (level : LogLevel)
    (message : string) (w : World) :
  silentSink output →
  events (exec (observed id output level message) w)
  = events w ++ [Called id level message].
Proof.
  intros Hq. unfold observed.
  by rewrite exec_bind, Hq, events_record.
Qed.

(** Running instrumented sinks on one message adds one call per sink, in
    the order of the list. *)
Lemma events_forEach_observed (outs : list OutputFunc) (k : nat)
    (level : LogLevel) (message : string) (w : World) :
  Forall silentSink outs →
  events (exec (forEach (imap (λ i, observed (k + i)) outs)
                        (λ output, output level message)) w)
  = events w ++ imap (λ i _, Called (k + i) level message) outs.
Proof.
  intros Hq. revert k w.
  induction Hq as [|out outs Hout _ IH]; intros k w; simpl.
  - by rewrite app_nil_r.
  - rewrite exec_bind.
    rewrite (imap_ext _ (λ i, observed (S k + i)) outs)
      by (intros i x _; unfold compose; by rewrite Nat.add_succ_r).
    rewrite IH, events_observed by done.
    rewrite <- app_assoc, Nat.add_0_r. simpl. do 2 f_equal.
    apply imap_ext. intros i x _. unfold compose. by rewrite Nat.add_succ_r.
Qed.

Lemma events_forEach_instrument (outs : list OutputFunc)
    (level : LogLevel) (message : string) (w : World) :
  Forall silentSink outs →
  events (exec (forEach (instrument outs)
                        (λ output, output level message)) w)
  = events w ++ imap (λ i _, Called i level message) outs.
Proof. intros Hq. by apply (events_forEach_observed outs 0). Qed.

(** ** Dispatch *)

Lemma Log_run (l : Logger.t) (level : LogLevel) (message : string)
    (additionalInfo : list InfoMap) (w : World) :
  Log l level message additionalInfo w
  = if level <=? Logger.level l
    then outputMessage l level
           (eval (formatMessage l level message (infoOf additionalInfo)) w)
           (exec (formatMessage l level message (infoOf additionalInfo)) w)
    else (tt, w).
Proof.
  unfold Log, shouldLog. destruct (level <=? Logger.level l); [|done].
  by rewrite run_bind.
Qed.

Lemma exec_Log (l : Logger.t) (level : LogLevel) (message : string)
    (additionalInfo : list InfoMap) (w : World) :
  exec (Log l level message additionalInfo) w
  = if level <=? Logger.level l
    then exec (outputMessage l level
                 (eval (formatMessage l level message (infoOf additionalInfo)) w))
              (exec (formatMessage l level message (infoOf additionalInfo)) w)
    else w.
Proof. unfold exec at 1. rewrite Log_run. by destruct (level <=? _). Qed.

Lemma imap_nonempty {A B} (f : nat → A → B) (l : list A) :
  l ≠ [] → imap f l ≠ [].
Proof. by destruct l. Qed.

Lemma app_neq_self {A} (l1 l2 : list A) : l2 ≠ [] → l1 ++ l2 ≠ l1.
Proof.
  intros Hne Heq. apply Hne.
  apply (app_inv_head l1). by rewrite app_nil_r.
Qed.

(** C1: for every level and every logger threshold, [Log] invokes the
    configured sinks if and only if the ordinal of the level is at most the
    ordinal of the threshold, on the scale where Emergency is 0 and Debug
    is 7.  The sinks are arbitrary and observed; the calls made to them are
    read off the record. *)
Theorem C1_log_emits_iff_level_le_threshold
    (l : Logger.t) (outs : list OutputFunc) (level : LogLevel)
    (message : string) (additionalInfo : list InfoMap) (w : World) :
  Logger.outputs l = instrument outs →
  outs ≠ [] →
  Forall silentSink outs →
  (∀ cb, Logger.formatCallback l = Some cb → quietFormat cb) →
  let w' := exec (Log l level message additionalInfo) w in
  let s := eval (formatMessage l level message (infoOf additionalInfo)) w in
  (calls (events w') ≠ calls (events w) ↔ level ≤ Logger.level l)
  ∧ calls (events w')
    = calls (events w)
      ++ (if bool_decide (level ≤ Logger.level l)
          then imap (λ i _, (i, level, s)) outs else [])
  ∧ shouldLog l level = bool_decide (level ≤ Logger.level l)
  ∧ [Emergency; Alert; Critical; Error; Warning; Notice; Info; Debug]
    = [0; 1; 2; 3; 4; 5; 6; 7].
Proof.
  intros Houts Hne Hsilent Hfmt w' s.
  assert (calls (events w')
          = calls (events w)
            ++ (if bool_decide (level ≤ Logger.level l)
                then imap (λ i _, (i, level, s)) outs else [])) as Hcalls.
  { subst w' s. rewrite exec_Log.
    destruct (Z.leb_spec level (Logger.level l)) as [Hle|Hgt].
    - rewrite bool_decide_eq_true_2 by done.
      unfold outputMessage. rewrite Houts.
      rewrite events_forEach_instrument, calls_app, calls_Called by done.
      by rewrite quiet_formatMessage.
    - rewrite bool_decide_eq_false_2 by lia. by rewrite app_nil_r. }
  split; [|split; [done|split; [|done]]].
  - rewrite Hcalls. case_bool_decide as Hle.
    + split; [done|]. intros _. by apply app_neq_self, imap_nonempty.
    + rewrite app_nil_r. split; [done|]. by intros ?.
  - unfold shouldLog. destruct (Z.leb_spec level (Logger.level l)).
    + by rewrite bool_decide_eq_true_2.
    + rewrite bool_decide_eq_false_2; [done|lia].
Qed.

Lemma C1_log_emits_iff_level_le_threshold_witness :
  Logger.outputs svcLogger = instrument [ConsoleOutput]
  ∧ [ConsoleOutput] ≠ []
  ∧ Forall silentSink [ConsoleOutput]
  ∧ (∀ cb, Logger.formatCallback svcLogger = Some cb → quietFormat cb)
  ∧ (calls (events (exec (Log svcLogger Debug "x" []) (initial "T")))
       ≠ calls (events (initial "T"))
     ↔ Debug ≤ Logger.level svcLogger).
Proof.
  assert (Forall silentSink [ConsoleOutput]) as Hs
    by (repeat constructor; apply silent_ConsoleOutput).
  assert (∀ cb, Logger.formatCallback svcLogger = Some cb → quietFormat cb)
    as Hf by (intros cb Hcb; discriminate Hcb).
  split; [reflexivity|]. split; [discriminate|].
  split; [exact Hs|]. split; [exact Hf|].
  exact (proj1 (C1_log_emits_iff_level_le_threshold svcLogger [ConsoleOutput]
                  Debug "x" [] (initial "T") eq_refl
                  (λ H, match H with end) Hs Hf)).
Defined.

(** The built-in formatter reads the clock once and touches nothing else. *)
Lemma formatMessage_builtin (l : Logger.t) (level : LogLevel)
    (message : string) (info : InfoMap) (w : World) :
  Logger.formatCallback l = None →
  formatMessage l level message info w
  = (if String.eqb (Logger.format l) JSONOutput
     then json.text (json.Marshal
            (Some (jsonData (Logger.prefix l) (clock w (reads w))
                            (LogLevel_String level) message info)))
     else textLine (Logger.prefix l) (clock w (reads w))
                   (LogLevel_String level) message info,
     mkWorld (clock w) (S (reads w)) (stdout w) (stderr w) (files w)
             (blocked w) (opened w) (events w)).
Proof.
  intros Hcb. unfold formatMessage. rewrite Hcb.
  rewrite run_bind. unfold eval, exec, timestampNow; simpl.
  by destruct (String.eqb _ _).
Qed.

(** C2: a call of [Log] whose level fails the threshold test returns at
    once, with nothing formatted and no sink called (the world is left as
    it was); any other call formats the message once and then calls every
    configured sink, in the order of the list, each with that one formatted
    string and the level of the call. *)
Theorem C2_log_short_circuit_or_format_once_then_all_sinks
    (l : Logger.t) (outs : list OutputFunc) (level : LogLevel)
    (message : string) (additionalInfo : list InfoMap) (w : World) :
  Logger.outputs l = instrument outs →
  Forall silentSink outs →
  let format := formatMessage l level message (infoOf additionalInfo) in
  let s := eval format w in
  let w1 := exec format w in
  (shouldLog l level = false → Log l level message additionalInfo w = (tt, w))
  ∧ (shouldLog l level = true →
       Log l level message additionalInfo w
       = forEach (Logger.outputs l) (λ output, output level s) w1
       ∧ events (exec (Log l level message additionalInfo) w)
         = events w1 ++ imap (λ i _, Called i level s) outs
       ∧ (Logger.formatCallback l = None →
            reads w1 = S (reads w) ∧ events w1 = events w)
       ∧ (∀ id f, Logger.formatCallback l = Some (probeFormat id f) →
            s = f level message (infoOf additionalInfo)
            ∧ events w1
              = events w ++ [Formatted id level message (infoOf additionalInfo)])).
Proof.
  intros Houts Hsilent format s w1. unfold shouldLog. split; intros Hle.
  - by rewrite Log_run, Hle.
  - split; [by rewrite Log_run, Hle|]. split; [|split].
    + rewrite exec_Log, Hle. unfold outputMessage. rewrite Houts.
      by rewrite events_forEach_instrument.
    + intros Hcb. subst w1 format. unfold exec.
      by rewrite formatMessage_builtin.
    + intros id f Hcb. subst s w1 format. unfold formatMessage.
      by rewrite Hcb.
Qed.

Lemma C2_log_short_circuit_or_format_once_then_all_sinks_witness :
  Logger.outputs svcLogger = instrument [ConsoleOutput]
  ∧ Forall silentSink [ConsoleOutput]
  ∧ Log svcLogger Debug "x" [] (initial "T") = (tt, initial "T")
  ∧ events (exec (Log svcLogger Error "y" [] ) (initial "T"))
    = [Called 0 Error "[svc] [T] [ERROR] y"].
Proof.
  assert (Forall silentSink [ConsoleOutput]) as Hs
    by (repeat constructor; apply silent_ConsoleOutput).
  split; [reflexivity|]. split; [exact Hs|]. split.
  - exact (proj1 (C2_log_short_circuit_or_format_once_then_all_sinks
                    svcLogger [ConsoleOutput] Debug "x" [] (initial "T")
                    eq_refl Hs) eq_refl).
  - exact (proj1 (proj2 (proj2
             (C2_log_short_circuit_or_format_once_then_all_sinks
                svcLogger [ConsoleOutput] Error "y" [] (initial "T")
                eq_refl Hs) eq_refl))).
Defined.

(** ** Construction *)

Lemma eqb_empty (s : string) :
  String.eqb s EmptyString = bool_decide (s = EmptyString).
Proof.
  destruct (String.eqb_spec s EmptyString).
  - by rewrite bool_decide_eq_true_2.
  - by rewrite bool_decide_eq_false_2.
Qed.

(** C3, as stated, fails in two places.  A caller that leaves [Level] out
    passes Go's zero value, which is [Emergency], a valid level: it is kept
    and not replaced by [Info].  And the default console sink compares
    ordinals only: a level below [Emergency] is none of Emergency..Error
    and is still written to standard-error, not to standard-output. *)
Lemma C3_unset_level_and_low_levels_counterexample :
  ¬ (∀ options : LogOptions.t,
       LogOptions.Level options < Emergency
       ∨ Debug < LogOptions.Level options
       ∨ LogOptions.Level options = LogOptions.Level LogOptions.zero →
       Logger.level (NewLogger options) = Info)
  ∧ Logger.level (NewLogger LogOptions.zero) = Emergency
  ∧ ¬ (∀ (level : LogLevel) (message : string) (w : World),
         ¬ (Emergency ≤ level ≤ Error) →
         stdout (exec (defaultConsoleOutput level message) w)
         = stdout w +:+ message +:+ newline)
  ∧ (let w := exec (defaultConsoleOutput (-1) "m") (initial "T") in
     stdout w = EmptyString ∧ stderr w = "m" +:+ newline).
Proof.
  split; [|split; [reflexivity|split; [|split; reflexivity]]].
  - intros H. specialize (H LogOptions.zero (or_intror (or_intror eq_refl))).
    discriminate H.
  - intros H. specialize (H (-1) "m" (initial "T")).
    assert (¬ (Emergency ≤ -1 ≤ Error)) as Hout by (unfold Emergency; lia).
    specialize (H Hout). discriminate H.
Qed.

(** C3, amended: [NewLogger] replaces a minimum level outside 0..7 by
    [Info] and keeps every level inside it (so the zero value of an unset
    level stays [Emergency]); it replaces an unset format by the string
    format and an empty list of sinks by the default console sink alone;
    that sink writes the message and a newline to standard-error for every
    level of ordinal at most that of [Error], and to standard-output for
    all others. *)
Theorem C3_NewLogger_defaults (options : LogOptions.t) :
  let l := NewLogger options in
  Logger.level l
  = (if bool_decide (LogOptions.Level options < Emergency
                     ∨ Debug < LogOptions.Level options)
     then Info else LogOptions.Level options)
  ∧ Logger.format l
    = (if bool_decide (LogOptions.Format options = EmptyString)
       then StringOutput else LogOptions.Format options)
  ∧ Logger.outputs l
    = (if bool_decide (LogOptions.Outputs options = [])
       then [defaultConsoleOutput] else LogOptions.Outputs options)
  ∧ Logger.formatCallback l = LogOptions.FormatCallback options
  ∧ Logger.prefix l = LogOptions.Prefix options
  ∧ Emergency ≤ Logger.level l ≤ Debug
  ∧ ∀ (level : LogLevel) (message : string) (w : World),
      defaultConsoleOutput level message w
      = (tt,
         if bool_decide (level ≤ Error)
         then mkWorld (clock w) (reads w) (stdout w)
                      (stderr w +:+ (message +:+ newline))
                      (files w) (blocked w) (opened w) (events w)
         else mkWorld (clock w) (reads w)
                      (stdout w +:+ (message +:+ newline)) (stderr w)
                      (files w) (blocked w) (opened w) (events w)).
Proof.
  destruct options as [lv fmt cb outs pfx].
  unfold NewLogger.
  cbn [LogOptions.Level LogOptions.Format LogOptions.FormatCallback
       LogOptions.Outputs LogOptions.Prefix Logger.level].
  assert (((lv <? Emergency) || (lv >? Debug))
          = bool_decide (lv < Emergency ∨ Debug < lv)) as ->.
  { case_bool_decide as H.
    - apply orb_true_iff. destruct H; [left|right]; lia.
    - apply orb_false_iff. split; lia. }
  assert (∀ l, String.eqb (Logger.format l) EmptyString
               = bool_decide (Logger.format l = EmptyString)) as Hfmt
    by (intros; apply eqb_empty).
  assert (∀ l, (length (Logger.outputs l) =? 0)%nat
               = bool_decide (Logger.outputs l = [])) as Houts
    by (intros l; by destruct (Logger.outputs l)).
  rewrite Hfmt, Houts. clear Hfmt Houts.
  repeat split.
  - by repeat case_bool_decide.
  - by repeat case_bool_decide.
  - by repeat case_bool_decide.
  - by repeat case_bool_decide.
  - by repeat case_bool_decide.
  - repeat case_bool_decide; simpl; unfold Emergency, Info, Debug in *; lia.
  - repeat case_bool_decide; simpl; unfold Emergency, Info, Debug in *; lia.
  - intros level message w. unfold defaultConsoleOutput.
    destruct (Z.leb_spec level Error).
    + by rewrite bool_decide_eq_true_2.
    + rewrite bool_decide_eq_false_2; [done|lia].
Qed.

(** ** Formats *)

Lemma append_cons (x : ascii) (a b : string) :
  String x a +:+ b = String x (a +:+ b).
Proof. reflexivity. Qed.

Lemma append_nil_l (a : string) : EmptyString +:+ a = a.
Proof. reflexivity. Qed.

Lemma append_assoc (a b c : string) : (a +:+ b) +:+ c = a +:+ (b +:+ c).
Proof.
  induction a as [|x a IH]; [done|]. rewrite !append_cons. by f_equal.
Qed.

Lemma append_nil_r (a : string) : a +:+ EmptyString = a.
Proof.
  induction a as [|x a IH]; [done|]. rewrite append_cons. by f_equal.
Qed.

(** Concatenations in normal form: nested to the right, literals as
    leading bytes. *)
Ltac string_norm :=
  repeat (rewrite append_assoc || rewrite append_cons || rewrite append_nil_l).

Lemma LogLevel_String_upper (level : LogLevel) :
  string_forallb is_upper (LogLevel_String level) = true.
Proof. unfold LogLevel_String. by repeat destruct (_ =? _). Qed.

Lemma LogLevel_String_names :
  LogLevel_String <$> [Emergency; Alert; Critical; Error; Warning; Notice; Info; Debug]
  = ["EMERGENCY"; "ALERT"; "CRITICAL"; "ERROR"; "WARNING"; "NOTICE"; "INFO"; "DEBUG"].
Proof. reflexivity. Qed.

Lemma LogLevel_String_unknown (level : LogLevel) :
  level < Emergency ∨ Debug < level → LogLevel_String level = "UNKNOWN".
Proof.
  intros H. unfold LogLevel_String.
  unfold Emergency, Alert, Critical, Error, Warning, Notice, Info, Debug in *.
  repeat match goal with
         | |- context [?a =? ?b] => destruct (Z.eqb_spec a b); [lia|]
         end.
  done.
Qed.

(** A map that [json.Marshal] accepts is written as one object in braces. *)
Lemma encodeObject_braces (m : gmap string value) (j : string) :
  json.encodeObject m = Some j → HasPrefix j "{" ∧ HasSuffix j "}".
Proof.
  unfold json.encodeObject. intros H.
  destruct (mapM json.encodeField (json.sortedEntries m)) as [fields|];
    simplify_eq/=.
  split.
  - by eexists.
  - exists ("{" +:+ json.join "," fields). by rewrite append_assoc.
Qed.

Lemma len_zero (info : InfoMap) : len info = 0%nat ↔ entries info = ∅.
Proof. unfold len. apply map_size_empty_iff. Qed.

Lemma textLine_eq (prefix timestamp logLevel message : string) (info : InfoMap) :
  textLine prefix timestamp logLevel message info
  = (if bool_decide (prefix = EmptyString) then EmptyString
     else "[" +:+ prefix +:+ "] ")
    +:+ ("[" +:+ timestamp +:+ "] [" +:+ logLevel +:+ "]")
    +:+ (if bool_decide (entries info = ∅) then EmptyString
         else " " +:+ json.text (json.Marshal info))
    +:+ " " +:+ message.
Proof.
  unfold textLine. rewrite eqb_empty.
  assert ((0 <? len info)%nat = negb (bool_decide (entries info = ∅))) as ->.
  { case_bool_decide as He.
    - apply len_zero in He. by rewrite He.
    - rewrite <- len_zero in He. apply Nat.ltb_lt. lia. }
  repeat case_bool_decide; cbn [negb]; by string_norm.
Qed.

(** C4, as stated, fails on the context segment: the formatter appends the
    JSON text of the context as it is, an object in braces, and puts no
    square brackets around it, whatever the JSON text is taken to be. *)
Lemma C4_context_segment_not_in_brackets_counterexample :
  let line :=
    eval (formatMessage svcLogger Error "y" (Some {["code" := VInt 500]}))
         (initial "T") in
  line = "[svc] [T] [ERROR] {" +:+ quoted "code" +:+ ":500} y"
  ∧ ∀ contextJSON,
      line ≠ statedTextLine "svc" "T" "ERROR" contextJSON "y" true.
Proof.
  assert (eval (formatMessage svcLogger Error "y" (Some {["code" := VInt 500]}))
               (initial "T")
          = "[svc] [T] [ERROR] {" +:+ quoted "code" +:+ ":500} y") as Hline
    by (vm_compute; reflexivity).
  split; [exact Hline|].
  intros contextJSON Heq. rewrite Hline in Heq.
  unfold statedTextLine in Heq.
  rewrite bool_decide_eq_false_2 in Heq by discriminate.
  revert Heq. string_norm. intros Heq. discriminate Heq.
Qed.

(** C4, amended: in text mode the line is the prefix in brackets (only for
    a non-empty prefix), the timestamp in brackets, the name of the level
    in upper case in brackets, the context as JSON (only for a non-empty
    context: the object in braces that [json.Marshal] yields, with no
    brackets around it, and nothing when [json.Marshal] fails), and the
    message as it was given, separated by single spaces. *)
Theorem C4_text_line_format
    (l : Logger.t) (level : LogLevel) (message : string) (info : InfoMap)
    (w : World) :
  Logger.formatCallback l = None →
  Logger.format l ≠ JSONOutput →
  let timestamp := clock w (reads w) in
  let name := LogLevel_String level in
  let line := eval (formatMessage l level message info) w in
  let head :=
    (if bool_decide (Logger.prefix l = EmptyString) then EmptyString
     else "[" +:+ Logger.prefix l +:+ "] ")
    +:+ ("[" +:+ timestamp +:+ "] [" +:+ name +:+ "]") in
  line
  = head
    +:+ (if bool_decide (entries info = ∅) then EmptyString
         else " " +:+ json.text (json.Marshal info))
    +:+ " " +:+ message
  ∧ (entries info = ∅ → line = head +:+ " " +:+ message)
  ∧ (∀ m j, info = Some m → m ≠ ∅ → json.Marshal info = Some j →
       line = head +:+ " " +:+ j +:+ " " +:+ message
       ∧ HasPrefix j "{" ∧ HasSuffix j "}")
  ∧ (Logger.prefix l = EmptyString →
       HasPrefix line ("[" +:+ timestamp +:+ "] [" +:+ name +:+ "]"))
  ∧ (Logger.prefix l ≠ EmptyString →
       HasPrefix line ("[" +:+ Logger.prefix l +:+ "] [" +:+ timestamp
                       +:+ "] [" +:+ name +:+ "]"))
  ∧ string_forallb is_upper name = true
  ∧ Contains line ("[" +:+ name +:+ "]")
  ∧ HasSuffix line (" " +:+ message).
Proof.
  intros Hcb Hfmt timestamp name line head.
  assert (line
          = head
            +:+ (if bool_decide (entries info = ∅) then EmptyString
                 else " " +:+ json.text (json.Marshal info))
            +:+ " " +:+ message) as Hline.
  { subst line head. unfold eval. rewrite formatMessage_builtin by done.
    destruct (String.eqb_spec (Logger.format l) JSONOutput); [done|].
    cbn [fst]. by rewrite textLine_eq, !append_assoc. }
  split; [done|]. split; [|split; [|split; [|split; [|split; [|split]]]]].
  - intros He. rewrite Hline. by rewrite bool_decide_eq_true_2.
  - intros m j -> Hm Hj. split.
    + rewrite Hline, bool_decide_eq_false_2 by done.
      rewrite Hj. cbn [json.text default]. by string_norm.
    + by apply (encodeObject_braces m).
  - intros Hp. rewrite Hline. subst head.
    rewrite bool_decide_eq_true_2 by done.
    eexists. string_norm. reflexivity.
  - intros Hp. rewrite Hline. subst head.
    rewrite bool_decide_eq_false_2 by done.
    eexists. string_norm. reflexivity.
  - apply LogLevel_String_upper.
  - rewrite Hline. subst head.
    exists ((if bool_decide (Logger.prefix l = EmptyString) then EmptyString
             else "[" +:+ Logger.prefix l +:+ "] ")
            +:+ "[" +:+ timestamp +:+ "] ").
    eexists. string_norm. reflexivity.
  - rewrite Hline. eexists. rewrite <- !append_assoc. reflexivity.
Qed.

Lemma C4_text_line_format_witness :
  Logger.formatCallback svcLogger = None
  ∧ Logger.format svcLogger ≠ JSONOutput
  ∧ HasSuffix (eval (formatMessage svcLogger Error "y"
                       (Some {["code" := VInt 500]})) (initial "T"))
              " y".
Proof.
  assert (Logger.format svcLogger ≠ JSONOutput) as Hf by discriminate.
  split; [reflexivity|]. split; [exact Hf|].
  exact (proj2 (proj2 (proj2 (proj2 (proj2 (proj2 (proj2
    (C4_text_line_format svcLogger Error "y" (Some {["code" := VInt 500]})
       (initial "T") eq_refl Hf)))))))).
Defined.

(** The scenario of the specification: threshold [Error], text mode,
    prefix [svc]. *)
Example text_scenario :
  events (exec (_ ← Logger_Debug svcLogger "x" [];
                Logger_Error svcLogger "y" [Some {["code" := VInt 500]}])
               (initial "T"))
  = [Called 0 Error ("[svc] [T] [ERROR] {" +:+ quoted "code" +:+ ":500} y")].
Proof. vm_compute. reflexivity. Qed.

(** *** The JSON object *)

Lemma mergeInfo_lookup (kvs : list (string * value))
    (base : gmap string value) (k : string) :
  NoDup kvs.*1 →
  mergeInfo kvs base !! k
  = match (list_to_map kvs : gmap string value) !! k with
    | Some v => Some v
    | None => base !! k
    end.
Proof.
  unfold mergeInfo. revert base.
  induction kvs as [|[k0 v0] kvs IH]; intros base Hnd; [done|].
  apply NoDup_cons in Hnd as [Hk0 Hnd]. cbn [foldl fst snd].
  rewrite IH by done. cbn [list_to_map foldr uncurry fst snd].
  destruct (decide (k = k0)) as [->|Hne].
  - rewrite (not_elem_of_list_to_map_1 kvs k0) by done.
    by rewrite !lookup_insert_eq.
  - by rewrite !lookup_insert_ne.
Qed.

(** The [range] loop meets the entries in an order that Go leaves open;
    whatever the order, the result is the context laid over the base. *)
Lemma mergeInfo_any_order (m base : gmap string value)
    (kvs : list (string * value)) :
  kvs ≡ₚ map_to_list m → mergeInfo kvs base = m ∪ base.
Proof.
  intros Hperm. apply map_eq. intros k.
  assert (NoDup kvs.*1) as Hnd.
  { rewrite Hperm. apply NoDup_fst_map_to_list. }
  rewrite mergeInfo_lookup by done.
  rewrite (list_to_map_proper kvs (map_to_list m)) by done.
  rewrite list_to_map_to_list, lookup_union.
  destruct (m !! k), (base !! k); done.
Qed.

Lemma jsonData_union (prefix timestamp logLevel message : string)
    (info : InfoMap) :
  jsonData prefix timestamp logLevel message info
  = entries info ∪ baseData prefix timestamp logLevel message.
Proof. unfold jsonData. by apply mergeInfo_any_order. Qed.

Lemma baseData_lookup (prefix timestamp logLevel message k : string) :
  baseData prefix timestamp logLevel message !! k
  = if bool_decide (k = "timestamp") then Some (VString timestamp)
    else if bool_decide (k = "level") then Some (VString logLevel)
    else if bool_decide (k = "message") then Some (VString message)
    else if bool_decide (k = "prefix")
         then (if bool_decide (prefix = EmptyString) then None
               else Some (VString prefix))
    else None.
Proof.
  unfold baseData. rewrite eqb_empty.
  destruct (bool_decide (prefix = EmptyString));
    repeat case_bool_decide; subst; by simplify_map_eq.
Qed.

(** [json.Marshal] accepts a map exactly when it accepts each of its
    values. *)
Lemma encodeObject_is_Some (m : gmap string value) :
  is_Some (json.encodeObject m)
  ↔ map_Forall (λ _ v, is_Some (json.encodeValue v)) m.
Proof.
  unfold json.encodeObject, json.sortedEntries.
  rewrite map_Forall_to_list.
  assert (Forall (uncurry (λ (_ : string) v, is_Some (json.encodeValue v)))
                 (map_to_list m)
          ↔ Forall (uncurry (λ (_ : string) v, is_Some (json.encodeValue v)))
                   (merge_sort json.key_le (map_to_list m))) as ->
    by (by rewrite merge_sort_Permutation).
  set (l := merge_sort json.key_le (map_to_list m)).
  split.
  - intros [j Hj].
    destruct (mapM json.encodeField l) as [fields|] eqn:Hm; [|done].
    assert (is_Some (mapM json.encodeField l)) as Hs by eauto.
    apply mapM_is_Some_1 in Hs. eapply Forall_impl; [exact Hs|].
    intros [k v]. unfold compose, json.encodeField. simpl.
    destruct (json.encodeValue v); [eauto|by intros [? ?]].
  - intros Hall.
    assert (is_Some (mapM json.encodeField l)) as [fields ->].
    { apply mapM_is_Some_2. eapply Forall_impl; [exact Hall|].
      intros [k v]. unfold compose, json.encodeField. simpl.
      by intros [s ->]. }
    by eexists.
Qed.

Lemma not_HasPrefix_empty (c : ascii) (p : string) :
  ¬ HasPrefix EmptyString (String c p).
Proof. intros [rest H]. rewrite append_cons in H. discriminate H. Qed.

(** *** JSON strings *)

Lemma cont_ge (b : N) : json.cont b = true → (128 <=? b)%N = true.
Proof. unfold json.cont. by intros [? _]%andb_prop. Qed.

Lemma not_lt_ge (b : N) : ¬ (b < 128)%N → (128 <=? b)%N = true.
Proof. intros H. apply N.leb_le. lia. Qed.

(** The chunks of a string are well formed and spell the string. *)
Lemma runes_inv_bounded (n : nat) (s : string) :
  (String.length s ≤ n)%nat →
  Forall json.wellFormed (json.runes s)
  ∧ foldr (λ ch acc, json.chunkBytes ch +:+ acc) EmptyString (json.runes s) = s.
Proof.
  revert s. induction n as [|n IH]; intros s Hlen.
  { destruct s; [by split|cbn in Hlen; lia]. }
  assert (∀ ch t, (String.length t ≤ n)%nat → json.wellFormed ch →
            json.chunkBytes ch +:+ t = s →
            Forall json.wellFormed (ch :: json.runes t)
            ∧ foldr (λ ch acc, json.chunkBytes ch +:+ acc) EmptyString
                (ch :: json.runes t) = s) as Hleaf.
  { intros ch t Ht Hwf Hs. destruct (IH t Ht) as [Hw Hr].
    split; [by constructor|]. cbn [foldr]. by rewrite Hr. }
  destruct s as [|c0 s1]; [by split|]. cbn [String.length] in Hlen.
  cbn [json.runes].
  destruct (N.ltb_spec (N_of_ascii c0) 128) as [Hlow|Hhigh].
  { apply Hleaf; [lia|done|done]. }
  assert ((128 <=? N_of_ascii c0)%N = true) as H0 by (apply N.leb_le; lia).
  assert (Forall json.wellFormed (json.Bad c0 :: json.runes s1)
          ∧ foldr (λ ch acc, json.chunkBytes ch +:+ acc) EmptyString
              (json.Bad c0 :: json.runes s1) = String c0 s1) as Hbad
    by (apply Hleaf; [lia|done|done]).
  destruct s1 as [|c1 s2]; [exact Hbad|]. cbn [String.length] in Hlen.
  destruct (json.lead2 _ && json.cont (N_of_ascii c1)) eqn:E2.
  { apply andb_prop in E2 as [_ H1%cont_ge].
    apply Hleaf; [lia| |done]. cbn. by rewrite H0, H1. }
  destruct s2 as [|c2 s3]; [exact Hbad|]. cbn [String.length] in Hlen.
  destruct (json.lead3 _ _ && json.cont (N_of_ascii c2)) eqn:E3.
  { apply andb_prop in E3 as [E3 H2%cont_ge].
    assert ((128 <=? N_of_ascii c1)%N = true) as H1.
    { unfold json.lead3, json.cont in E3. apply N.leb_le.
      repeat match goal with
             | H : _ || _ = true |- _ => apply orb_prop in H as [H|H]
             | H : _ && _ = true |- _ => apply andb_prop in H as [? ?]
             | H : (_ <=? _)%N = true |- _ => apply N.leb_le in H
             | H : (_ =? _)%N = true |- _ => apply N.eqb_eq in H
             end; lia. }
    apply Hleaf; [lia| |done]. cbn. by rewrite H0, H1, H2. }
  destruct s3 as [|c3 s4]; [exact Hbad|]. cbn [String.length] in Hlen.
  destruct (json.lead4 _ _ && json.cont (N_of_ascii c2)
            && json.cont (N_of_ascii c3)) eqn:E4; [|exact Hbad].
  apply andb_prop in E4 as [E4 H3%cont_ge].
  apply andb_prop in E4 as [E4 H2%cont_ge].
  assert ((128 <=? N_of_ascii c1)%N = true) as H1.
  { unfold json.lead4, json.cont in E4. apply N.leb_le.
    repeat match goal with
           | H : _ || _ = true |- _ => apply orb_prop in H as [H|H]
           | H : _ && _ = true |- _ => apply andb_prop in H as [? ?]
           | H : (_ <=? _)%N = true |- _ => apply N.leb_le in H
           | H : (_ =? _)%N = true |- _ => apply N.eqb_eq in H
           end; lia. }
  apply Hleaf; [lia| |done]. cbn. by rewrite H0, H1, H2, H3.
Qed.

Lemma runes_inv (s : string) :
  Forall json.wellFormed (json.runes s)
  ∧ foldr (λ ch acc, json.chunkBytes ch +:+ acc) EmptyString (json.runes s) = s.
Proof. by apply (runes_inv_bounded (String.length s)). Qed.

Lemma prepend_prepend (a b : string) (r : option (string * string)) :
  json.prepend a (json.prepend b r) = json.prepend (a +:+ b) r.
Proof. destruct r as [[body tail]|]; [|done]. cbn. by rewrite append_assoc. Qed.

Lemma prepend_nil (r : option (string * string)) :
  json.prepend EmptyString r = r.
Proof. by destruct r as [[body tail]|]. Qed.

Lemma decode_Byte (c : ascii) (u : string) :
  (N_of_ascii c < 128)%N →
  json.decodeBody (json.escape c +:+ u)
  = json.prepend (String c EmptyString) (json.decodeBody u).
Proof.
  destruct c as [[] [] [] [] [] [] [] []]; intros H;
    first [reflexivity | exfalso; vm_compute in H; discriminate H].
Qed.

Lemma decode_high (bytes u : string) :
  string_forallb (λ c, (128 <=? N_of_ascii c)%N) bytes = true →
  json.decodeBody (bytes +:+ u) = json.prepend bytes (json.decodeBody u).
Proof.
  induction bytes as [|c bytes IH]; intros Hall.
  { by rewrite append_nil_l, prepend_nil. }
  cbn [string_forallb] in Hall. apply andb_prop in Hall as [Hc Hall].
  apply N.leb_le in Hc. rewrite append_cons. cbn [json.decodeBody].
  rewrite (proj2 (N.eqb_neq _ 34)) by lia.
  rewrite (proj2 (N.eqb_neq _ 92)) by lia.
  rewrite (proj2 (N.ltb_ge _ 32)) by lia.
  by rewrite IH, prepend_prepend.
Qed.

Lemma decode_chunk (ch : json.chunk) (u : string) :
  json.wellFormed ch →
  json.decodeBody (json.encodeChunk ch +:+ u)
  = json.prepend (json.coerceChunk ch) (json.decodeBody u).
Proof.
  destruct ch as [c|bytes|c]; cbn [json.wellFormed json.encodeChunk
                                   json.coerceChunk]; intros Hwf.
  - by apply decode_Byte.
  - destruct (String.eqb_spec bytes json.lineSeparator) as [->|_];
      [reflexivity|].
    destruct (String.eqb_spec bytes json.paragraphSeparator) as [->|_];
      [reflexivity|].
    by apply decode_high.
  - reflexivity.
Qed.

Lemma decode_escapeAll (s u : string) :
  json.decodeBody (json.escapeAll s +:+ u)
  = json.prepend (json.coerceUTF8 s) (json.decodeBody u).
Proof.
  unfold json.escapeAll, json.coerceUTF8.
  destruct (runes_inv s) as [Hwf _].
  induction Hwf as [|ch chs Hch _ IH]; cbn [foldr].
  - by rewrite append_nil_l, prepend_nil.
  - by rewrite append_assoc, decode_chunk, IH, prepend_prepend.
Qed.

(** What the encoder writes for a string reads back as the string with
    U+FFFD for each invalid byte. *)
Lemma decodeString_encodeString (s : string) :
  json.decodeString (json.encodeString s) = Some (json.coerceUTF8 s).
Proof.
  unfold json.encodeString, quoted. cbn [json.decodeString].
  change (N_of_ascii dquote =? 34)%N with true. cbv iota.
  rewrite decode_escapeAll. cbn [json.decodeBody].
  change (N_of_ascii dquote =? 34)%N with true. cbn.
  by rewrite append_nil_r.
Qed.

(** A valid UTF-8 string reads back as itself. *)
Lemma coerceUTF8_valid (s : string) :
  json.ValidString s = true → json.coerceUTF8 s = s.
Proof.
  unfold json.ValidString, json.coerceUTF8. intros Hv.
  destruct (runes_inv s) as [_ Hraw]. rewrite <- Hraw at 2. clear Hraw.
  induction (json.runes s) as [|ch chs IH]; [done|].
  cbn [forallb] in Hv. apply andb_prop in Hv as [Hch Hv].
  cbn [foldr]. rewrite IH by done. by destruct ch.
Qed.

Lemma encodeString_level_name (level : LogLevel) :
  json.encodeString (LogLevel_String level) = quoted (LogLevel_String level).
Proof.
  unfold LogLevel_String.
  repeat match goal with
         | |- context [if ?b then _ else _] => destruct b
         end; vm_compute; reflexivity.
Qed.

(** The text of an object has one member for each entry of the map. *)
Lemma encodeObject_members (m : gmap string value) (j : string) :
  json.encodeObject m = Some j →
  ∃ fields,
    j = "{" +:+ json.join "," fields +:+ "}"
    ∧ length fields = size m
    ∧ Forall2 (λ kv field,
                 ∃ venc, json.encodeValue kv.2 = Some venc
                         ∧ field = json.member kv.1 venc)
              (json.sortedEntries m) fields
    ∧ ∀ k v, m !! k = Some v →
        ∃ venc, json.encodeValue v = Some venc
                ∧ json.member k venc ∈ fields.
Proof.
  unfold json.encodeObject. intros H.
  destruct (mapM json.encodeField (json.sortedEntries m)) as [fields|] eqn:Hm;
    simplify_eq/=.
  apply mapM_Some in Hm.
  assert (Forall2 (λ kv field,
                     ∃ venc, json.encodeValue kv.2 = Some venc
                             ∧ field = json.member kv.1 venc)
                  (json.sortedEntries m) fields) as Hall.
  { eapply Forall2_impl; [exact Hm|]. intros [k v] field.
    unfold json.encodeField. cbn.
    destruct (json.encodeValue v) as [venc|]; [|done].
    cbn. intros [= <-]. by exists venc. }
  exists fields. split; [done|]. split; [|split; [done|]].
  - rewrite <- (Forall2_length _ _ _ Hall). unfold json.sortedEntries.
    rewrite merge_sort_Permutation. apply length_map_to_list.
  - intros k v Hk.
    assert ((k, v) ∈ json.sortedEntries m) as Hin.
    { unfold json.sortedEntries. rewrite merge_sort_Permutation.
      by apply elem_of_map_to_list. }
    apply list_elem_of_lookup in Hin as [i Hi].
    destruct (Forall2_lookup_l _ _ _ _ _ Hall Hi) as (field & Hf & venc & Hv & ->).
    exists venc. split; [done|]. apply list_elem_of_lookup. by exists i.
Qed.

(** C5, as stated, fails when the context holds a value that
    [json.Marshal] cannot encode (a channel, here): the error is discarded
    and the output is the empty string, which is no JSON object and holds
    neither the message nor the level. *)
Lemma C5_unencodable_context_counterexample :
  ¬ (∀ (l : Logger.t) (level : LogLevel) (message : string)
       (info : InfoMap) (w : World),
       Logger.formatCallback l = None →
       Logger.format l = JSONOutput →
       ∃ data : gmap string value,
         json.encodeObject data
         = Some (eval (formatMessage l level message info) w))
  ∧ eval (formatMessage jsonLogger Info "hello" (Some {["k" := VChan 0]}))
         (initial "T")
    = EmptyString.
Proof.
  assert (eval (formatMessage jsonLogger Info "hello" (Some {["k" := VChan 0]}))
               (initial "T") = EmptyString) as Hout
    by (vm_compute; reflexivity).
  split; [|exact Hout].
  intros H.
  destruct (H jsonLogger Info "hello" (Some {["k" := VChan 0]}) (initial "T")
              eq_refl eq_refl) as [data Hdata].
  rewrite Hout in Hdata.
  apply encodeObject_braces in Hdata as [Hp _].
  by apply not_HasPrefix_empty in Hp.
Qed.

Lemma LogLevel_String_valid (level : LogLevel) :
  json.ValidString (LogLevel_String level) = true.
Proof.
  unfold LogLevel_String.
  repeat match goal with
         | |- context [if ?b then _ else _] => destruct b
         end; vm_compute; reflexivity.
Qed.

(** C5, amended: in JSON mode the formatter hands to [json.Marshal] the
    map [data] that holds [timestamp], [level] (the name of the level),
    [message] (the string given) and, for a non-empty prefix only,
    [prefix], with every context entry laid over these at the top level: a
    context key wins over a fixed field of the same name, in whatever order
    the loop meets the entries.  When every context value can be encoded,
    the output is that one JSON object, with one member for each entry of
    [data]; the member [message] is the JSON string of the message, which
    reads back as the message when it is valid UTF-8 and with U+FFFD for
    each invalid byte otherwise, and the member [level] is the name of the
    level in quotes.  When a context value cannot be encoded, the error is
    discarded and the output is the empty string. *)
Theorem C5_json_object_format
    (l : Logger.t) (level : LogLevel) (message : string) (info : InfoMap)
    (w : World) :
  Logger.formatCallback l = None →
  Logger.format l = JSONOutput →
  let timestamp := clock w (reads w) in
  let name := LogLevel_String level in
  let base := baseData (Logger.prefix l) timestamp name message in
  let data := jsonData (Logger.prefix l) timestamp name message info in
  let out := eval (formatMessage l level message info) w in
  out = json.text (json.encodeObject data)
  ∧ (∀ k v, entries info !! k = Some v → data !! k = Some v)
  ∧ (∀ k, entries info !! k = None → data !! k = base !! k)
  ∧ base !! "timestamp" = Some (VString timestamp)
  ∧ base !! "level" = Some (VString name)
  ∧ base !! "message" = Some (VString message)
  ∧ base !! "prefix"
    = (if bool_decide (Logger.prefix l = EmptyString) then None
       else Some (VString (Logger.prefix l)))
  ∧ dom base
    = {["timestamp"; "level"; "message"]}
      ∪ (if bool_decide (Logger.prefix l = EmptyString) then ∅
         else {["prefix"]})
  ∧ dom data = dom (entries info) ∪ dom base
  ∧ (∀ kvs, kvs ≡ₚ map_to_list (entries info) → mergeInfo kvs base = data)
  ∧ (map_Forall (λ _ v, is_Some (json.encodeValue v)) (entries info) →
       ∃ j fields,
         json.encodeObject data = Some j ∧ out = j
         ∧ HasPrefix j "{" ∧ HasSuffix j "}"
         ∧ j = "{" +:+ json.join "," fields +:+ "}"
         ∧ length fields = size data
         ∧ (∀ k v, data !! k = Some v →
              ∃ venc, json.encodeValue v = Some venc
                      ∧ json.member k venc ∈ fields)
         ∧ (entries info !! "message" = None →
              json.member "message" (json.encodeString message) ∈ fields)
         ∧ (entries info !! "level" = None →
              json.member "level" (quoted name) ∈ fields)
         ∧ (entries info !! "timestamp" = None →
              json.member "timestamp" (json.encodeString timestamp) ∈ fields))
  ∧ (¬ map_Forall (λ _ v, is_Some (json.encodeValue v)) (entries info) →
       out = EmptyString)
  ∧ json.decodeString (json.encodeString message)
    = Some (json.coerceUTF8 message)
  ∧ (json.ValidString message = true →
       json.decodeString (json.encodeString message) = Some message)
  ∧ json.decodeString (quoted name) = Some name.
Proof.
  intros Hcb Hfmt timestamp name base data out.
  assert (data = entries info ∪ base) as Hdata by apply jsonData_union.
  assert (out = json.text (json.encodeObject data)) as Hout.
  { subst out. unfold eval. rewrite formatMessage_builtin, Hfmt by done.
    done. }
  assert (map_Forall (λ _ v, is_Some (json.encodeValue v)) base) as Hbase.
  { intros k v. subst base. rewrite baseData_lookup.
    repeat case_bool_decide; intros; simplify_eq; by eexists. }
  assert (∀ k, entries info !! k = None → data !! k = base !! k) as Hfixed.
  { intros k Hk. rewrite Hdata. by apply lookup_union_r. }
  split; [done|]. split; [|split; [done|]].
  { intros k v Hk. rewrite Hdata. by apply lookup_union_Some_l. }
  assert (base !! "timestamp" = Some (VString timestamp)
          ∧ base !! "level" = Some (VString name)
          ∧ base !! "message" = Some (VString message)) as (Hbt & Hbl & Hbm).
  { subst base. by rewrite !baseData_lookup. }
  split; [done|]. split; [done|]. split; [done|].
  split; [subst base; by rewrite baseData_lookup|].
  split.
  { subst base. unfold baseData. rewrite eqb_empty. case_bool_decide.
    - rewrite !dom_insert_L, dom_empty_L. set_solver.
    - rewrite !dom_insert_L, dom_empty_L. set_solver. }
  split; [by rewrite Hdata, dom_union_L|].
  split; [intros kvs Hp; rewrite Hdata; by apply mergeInfo_any_order|].
  split; [|split; [|split; [|split]]].
  - intros Hall.
    assert (is_Some (json.encodeObject data)) as [j Hj].
    { apply encodeObject_is_Some. rewrite Hdata.
      intros k v [Hk|[_ Hk]]%lookup_union_Some_raw.
      - by apply (Hall k).
      - by apply (Hbase k). }
    destruct (encodeObject_members data j Hj)
      as (fields & Hjf & Hlen & _ & Hmem).
    destruct (encodeObject_braces data j Hj) as [Hpre Hsuf].
    exists j, fields. split; [done|]. split; [by rewrite Hout, Hj|].
    split; [done|]. split; [done|]. split; [done|]. split; [done|].
    split; [done|].
    split; [|split].
    + intros Hk.
      destruct (Hmem "message" (VString message)) as (venc & Hv & Hin);
        [by rewrite Hfixed|].
      cbn in Hv. by simplify_eq.
    + intros Hk.
      destruct (Hmem "level" (VString name)) as (venc & Hv & Hin);
        [by rewrite Hfixed|].
      cbn in Hv. simplify_eq. subst name.
      by rewrite <- encodeString_level_name.
    + intros Hk.
      destruct (Hmem "timestamp" (VString timestamp)) as (venc & Hv & Hin);
        [by rewrite Hfixed|].
      cbn in Hv. by simplify_eq.
  - intros Hnot. rewrite Hout.
    destruct (json.encodeObject data) as [j|] eqn:Hj; [|done].
    exfalso. apply Hnot.
    assert (is_Some (json.encodeObject data)) as Hs by eauto.
    apply encodeObject_is_Some in Hs.
    intros k v Hk. apply (Hs k). rewrite Hdata. by apply lookup_union_Some_l.
  - apply decodeString_encodeString.
  - intros Hv. by rewrite decodeString_encodeString, coerceUTF8_valid.
  - subst name. rewrite <- encodeString_level_name.
    rewrite decodeString_encodeString, coerceUTF8_valid; [done|].
    apply LogLevel_String_valid.
Qed.

Lemma C5_json_object_format_witness :
  Logger.formatCallback jsonLogger = None
  ∧ Logger.format jsonLogger = JSONOutput
  ∧ eval (formatMessage jsonLogger Info "hello" (Some {["k" := VString "v"]}))
         (initial "T")
    = json.text (json.encodeObject
        (jsonData EmptyString "T" "INFO" "hello" (Some {["k" := VString "v"]}))).
Proof.
  split; [reflexivity|]. split; [reflexivity|].
  exact (proj1 (C5_json_object_format jsonLogger Info "hello"
                  (Some {["k" := VString "v"]}) (initial "T") eq_refl eq_refl)).
Defined.

(** The scenario of the specification: JSON mode, no prefix; and a context
    key that shadows a fixed field. *)
Example json_scenario :
  eval (formatMessage jsonLogger Info "hello" (Some {["k" := VString "v"]}))
       (initial "T")
  = "{" +:+ quoted "k" +:+ ":" +:+ quoted "v" +:+ ","
    +:+ quoted "level" +:+ ":" +:+ quoted "INFO" +:+ ","
    +:+ quoted "message" +:+ ":" +:+ quoted "hello" +:+ ","
    +:+ quoted "timestamp" +:+ ":" +:+ quoted "T" +:+ "}"
  ∧ eval (formatMessage jsonLogger Info "hello"
            (Some {["message" := VInt 7]})) (initial "T")
    = "{" +:+ quoted "level" +:+ ":" +:+ quoted "INFO" +:+ ","
      +:+ quoted "message" +:+ ":7,"
      +:+ quoted "timestamp" +:+ ":" +:+ quoted "T" +:+ "}".
Proof. split; vm_compute; reflexivity. Qed.

(** A message that is not valid UTF-8, and the separators U+2028 and
    U+2029: the encoder writes U+FFFD for the stray byte and escapes the
    separators, so the member [message] of the object does not read back
    as the message in the first case and does in the second. *)
Example json_invalid_utf8_scenario :
  let stray := String "a" (String (ascii_of_N 255) "b") in
  let separated := "a" +:+ json.lineSeparator +:+ json.paragraphSeparator in
  eval (formatMessage jsonLogger Info stray None) (initial "T")
  = "{" +:+ quoted "level" +:+ ":" +:+ quoted "INFO" +:+ ","
    +:+ quoted "message" +:+ ":" +:+ quoted ("a" +:+ String backslash "ufffdb")
    +:+ "," +:+ quoted "timestamp" +:+ ":" +:+ quoted "T" +:+ "}"
  ∧ json.decodeString (json.encodeString stray)
    = Some ("a" +:+ json.replacement +:+ "b")
  ∧ json.ValidString stray = false
  ∧ json.encodeString separated
    = quoted ("a" +:+ String backslash "u2028" +:+ String backslash "u2029")
  ∧ json.decodeString (json.encodeString separated) = Some separated.
Proof. repeat split; vm_compute; reflexivity. Qed.

(** ** The custom formatter *)

Lemma formatMessage_callback (l : Logger.t) (cb : FormatFunc)
    (level : LogLevel) (message : string) (info : InfoMap) :
  Logger.formatCallback l = Some cb →
  formatMessage l level message info = cb level message info.
Proof. intros Hcb. unfold formatMessage. by rewrite Hcb. Qed.

Lemma NewLogger_formatCallback (options : LogOptions.t) :
  Logger.formatCallback (NewLogger options) = LogOptions.FormatCallback options.
Proof.
  unfold NewLogger.
  repeat match goal with
         | |- context [if ?b then _ else _] => destruct b
         end; reflexivity.
Qed.

Lemma NewLogger_outputs (options : LogOptions.t) :
  LogOptions.Outputs options ≠ [] →
  Logger.outputs (NewLogger options) = LogOptions.Outputs options.
Proof.
  intros Hne. unfold NewLogger.
  destruct options as [lv fmt cb outs pfx]. simpl in *.
  destruct outs; [done|].
  destruct ((lv <? Emergency) || (lv >? Debug)); simpl;
    destruct (String.eqb fmt EmptyString); reflexivity.
Qed.

(** C6: a logger built with a custom format callback formats with the
    callback and nothing else: [formatMessage] is the callback (the clock,
    which the built-in formats read, is left alone, whatever the format
    and prefix options say), the sinks receive the very string that the
    callback returns, and the callback receives the context of the call as
    it is, or a fresh empty map when the caller passed none. *)
Theorem C6_custom_formatter_replaces_builtin
    (options : LogOptions.t) (cb : FormatFunc) (outs : list OutputFunc)
    (level : LogLevel) (message : string) (additionalInfo : list InfoMap)
    (w : World) :
  LogOptions.FormatCallback options = Some cb →
  LogOptions.Outputs options = instrument outs →
  outs ≠ [] →
  Forall silentSink outs →
  let l := NewLogger options in
  let info := infoOf additionalInfo in
  let s := eval (cb level message info) w in
  let w1 := exec (cb level message info) w in
  (∀ level message info, formatMessage l level message info = cb level message info)
  ∧ Log l level message additionalInfo w
    = (if level <=? Logger.level l
       then forEach (instrument outs) (λ output, output level s) w1
       else (tt, w))
  ∧ (level ≤ Logger.level l →
       events (exec (Log l level message additionalInfo) w)
       = events w1 ++ imap (λ i _, Called i level s) outs)
  ∧ (∀ id f, cb = probeFormat id f →
       s = f level message info
       ∧ reads w1 = reads w
       ∧ events w1 = events w ++ [Formatted id level message info])
  ∧ infoOf [] = Some ∅
  ∧ (∀ first rest, infoOf (first :: rest) = first).
Proof.
  intros Hcb Houts Hne Hsilent l info s w1.
  assert (Logger.formatCallback l = Some cb) as Hl
    by (subst l; by rewrite NewLogger_formatCallback).
  assert (Logger.outputs l = instrument outs) as Ho.
  { subst l. rewrite NewLogger_outputs; [done|].
    rewrite Houts. by apply imap_nonempty. }
  assert (∀ level message info,
            formatMessage l level message info = cb level message info) as Hf
    by (intros; by apply formatMessage_callback).
  split; [done|]. split; [|split; [|split; [|done]]].
  - rewrite Log_run, Hf. unfold outputMessage. by rewrite Ho.
  - intros Hle. rewrite exec_Log, Hf.
    rewrite (proj2 (Z.leb_le _ _)) by done.
    unfold outputMessage. rewrite Ho.
    by rewrite events_forEach_instrument.
  - intros id f ->. done.
Qed.

Lemma C6_custom_formatter_replaces_builtin_witness :
  let cb := probeFormat 9 (λ _ message _, "CUSTOM: " +:+ message) in
  let options :=
    LogOptions.mk Debug JSONOutput (Some cb) (instrument [ConsoleOutput])
                  "custom" in
  LogOptions.FormatCallback options = Some cb
  ∧ LogOptions.Outputs options = instrument [ConsoleOutput]
  ∧ [ConsoleOutput] ≠ []
  ∧ Forall silentSink [ConsoleOutput]
  ∧ events (exec (Log (NewLogger options) Info "test message" []) (initial "T"))
    = [Formatted 9 Info "test message" (Some ∅);
       Called 0 Info "CUSTOM: test message"].
Proof.
  intros cb options.
  assert (Forall silentSink [ConsoleOutput]) as Hs
    by (repeat constructor; apply silent_ConsoleOutput).
  assert ([ConsoleOutput] ≠ []) as Hne by discriminate.
  split; [reflexivity|]. split; [reflexivity|].
  split; [exact Hne|]. split; [exact Hs|].
  refine (proj1 (proj2 (proj2
            (C6_custom_formatter_replaces_builtin options cb [ConsoleOutput]
               Info "test message" [] (initial "T") eq_refl eq_refl Hne Hs)))
            _).
  vm_compute. discriminate.
Defined.

(** ** Composed sinks *)

Lemma LevelFilterOutput_run (minLevel : LogLevel) (output : OutputFunc)
    (level : LogLevel) (message : string) (w : World) :
  LevelFilterOutput minLevel output level message w
  = if bool_decide (level ≤ minLevel) then output level message w else (tt, w).
Proof.
  unfold LevelFilterOutput. destruct (Z.leb_spec level minLevel).
  - by rewrite bool_decide_eq_true_2.
  - rewrite bool_decide_eq_false_2; [done|lia].
Qed.

(** C7: a level-filter sink with threshold [minLevel] passes a call on to
    the sink it wraps if and only if the ordinal of the level is at most
    that of the threshold.  Over any sequence of calls, the wrapped sink
    receives exactly those that pass, unchanged and in order, and so never
    one of a level above the threshold. *)
Theorem C7_level_filter_passes_iff_le
    (minLevel : LogLevel) (output : OutputFunc) (level : LogLevel)
    (message : string) (callList : list (LogLevel * string)) (w : World) :
  silentSink output →
  let filtered := LevelFilterOutput minLevel (observed 0 output) in
  LevelFilterOutput minLevel output level message w
  = (if bool_decide (level ≤ minLevel) then output level message w else (tt, w))
  ∧ (events (exec (filtered level message) w) ≠ events w ↔ level ≤ minLevel)
  ∧ events (exec (filtered level message) w)
    = events w ++ (if bool_decide (level ≤ minLevel)
                   then [Called 0 level message] else [])
  ∧ events (exec (forEach callList (λ c, filtered c.1 c.2)) w)
    = events w
      ++ ((λ c, Called 0 c.1 c.2) <$> filter (λ c, c.1 ≤ minLevel) callList)
  ∧ (∀ c, c ∈ filter (λ c, c.1 ≤ minLevel) callList → c.1 ≤ minLevel).
Proof.
  intros Hsilent filtered.
  assert (∀ level message w,
            events (exec (filtered level message) w)
            = events w ++ (if bool_decide (level ≤ minLevel)
                           then [Called 0 level message] else [])) as Hone.
  { intros lv msg w0. subst filtered. unfold exec at 1.
    rewrite LevelFilterOutput_run. case_bool_decide.
    - by apply events_observed.
    - by rewrite app_nil_r. }
  split; [apply LevelFilterOutput_run|]. split; [|split; [apply Hone|split]].
  - rewrite Hone. case_bool_decide.
    + split; [done|]. intros _. by apply app_neq_self.
    + rewrite app_nil_r. split; [done|]. by intros ?.
  - revert w. induction callList as [|[lv msg] cs IH]; intros w.
    + by rewrite app_nil_r.
    + cbn [forEach]. rewrite exec_bind, IH. cbn [fst snd]. rewrite Hone.
      rewrite filter_cons. cbn [fst]. case_bool_decide.
      * rewrite decide_True by done. by rewrite <- app_assoc.
      * rewrite decide_False by done. by rewrite app_nil_r.
  - intros c Hc. by apply list_elem_of_filter in Hc as [Hc _].
Qed.

Lemma C7_level_filter_passes_iff_le_witness :
  silentSink ConsoleOutput
  ∧ events (exec (forEach [(Debug, "d"); (Error, "e"); (Info, "i"); (-1, "u")]
                    (λ c, LevelFilterOutput Error (observed 0 ConsoleOutput)
                            c.1 c.2))
                 (initial "T"))
    = events (initial "T")
      ++ ((λ c, Called 0 c.1 c.2)
            <$> filter (λ c, c.1 ≤ Error)
                  [(Debug, "d"); (Error, "e"); (Info, "i"); (-1, "u")]).
Proof.
  split; [exact silent_ConsoleOutput|].
  exact (proj1 (proj2 (proj2 (proj2
           (C7_level_filter_passes_iff_le Error ConsoleOutput Debug "d"
              [(Debug, "d"); (Error, "e"); (Info, "i"); (-1, "u")]
              (initial "T") silent_ConsoleOutput))))).
Defined.

Lemma filter_none {A} (P : A → Prop) `{∀ x, Decision (P x)} (l : list A) :
  Forall (λ x, ¬ P x) l → filter P l = [].
Proof.
  induction 1 as [|x l Hx _ IH]; [done|].
  by rewrite filter_cons, decide_False.
Qed.

(** C8: a call to a multiplex sink calls each wrapped sink once, with the
    level and message of that call, in the order in which the sinks were
    given: the record grows by one call per sink, the [i]-th of them to the
    [i]-th sink. *)
Theorem C8_multi_output_calls_each_once_in_order
    (outs : list OutputFunc) (level : LogLevel) (message : string) (w : World) :
  Forall silentSink outs →
  let new := imap (λ i (_ : OutputFunc), Called i level message) outs in
  MultiOutput (instrument outs) level message
  = forEach (instrument outs) (λ output, output level message)
  ∧ events (exec (MultiOutput (instrument outs) level message) w)
    = events w ++ new
  ∧ length new = length outs
  ∧ (∀ i, new !! i = (λ _, Called i level message) <$> outs !! i)
  ∧ (∀ i, (i < length outs)%nat →
       filter (λ c : nat * LogLevel * string, c.1.1 = i) (calls new)
       = [(i, level, message)]).
Proof.
  intros Hsilent new. split; [done|]. split; [|split; [|split]].
  - unfold MultiOutput. by apply events_forEach_instrument.
  - subst new. apply length_imap.
  - intros i. subst new. apply list_lookup_imap.
  - subst new. rewrite calls_Called. clear Hsilent w.
    assert (∀ k i, (i < length outs)%nat →
              filter (λ c : nat * LogLevel * string, c.1.1 = (k + i)%nat)
                (imap (λ j (_ : OutputFunc), ((k + j)%nat, level, message)) outs)
              = [((k + i)%nat, level, message)]) as H.
    { induction outs as [|o outs IH]; intros k i Hi; simpl in Hi; [lia|].
      rewrite imap_cons, filter_cons. cbn [fst].
      rewrite (imap_ext _ (λ j _, ((S k + j)%nat, level, message)))
        by (intros j x _; unfold compose; by rewrite Nat.add_succ_r).
      destruct i as [|i].
      - rewrite decide_True by done. rewrite Nat.add_0_r. f_equal.
        apply filter_none, Forall_forall. intros c Hc Heq.
        apply elem_of_lookup_imap in Hc as (j & x & Hc & _).
        subst c. cbn [fst] in Heq. lia.
      - rewrite decide_False by lia.
        replace (k + S i)%nat with (S k + i)%nat by lia.
        apply IH. lia. }
    intros i Hi. apply (H 0%nat i Hi).
Qed.

Lemma C8_multi_output_calls_each_once_in_order_witness :
  Forall silentSink [ConsoleOutput; defaultConsoleOutput]
  ∧ events (exec (MultiOutput (instrument [ConsoleOutput; defaultConsoleOutput])
                    Notice "m") (initial "T"))
    = events (initial "T") ++ [Called 0 Notice "m"; Called 1 Notice "m"].
Proof.
  assert (Forall silentSink [ConsoleOutput; defaultConsoleOutput]) as Hs.
  { repeat constructor.
    - apply silent_ConsoleOutput.
    - apply silent_defaultConsoleOutput. }
  split; [exact Hs|].
  exact (proj1 (proj2
           (C8_multi_output_calls_each_once_in_order
              [ConsoleOutput; defaultConsoleOutput] Notice "m" (initial "T") Hs))).
Defined.

(** ** The file sink *)

Lemma FileOutput_run (filename : string) (w : World) :
  FileOutput filename w
  = match blocked w !! filename with
    | Some e =>
        ((None,
          Some (Errorf ("failed to open log file " +:+ filename +:+ ": "
                        +:+ error_Error (PathError "open" filename e))
                       (PathError "open" filename e))),
         mkWorld (clock w) (reads w) (stdout w) (stderr w) (files w)
                 (blocked w) (opened w ++ [filename]) (events w))
    | None =>
        ((Some (λ (level : LogLevel) message,
                  Fprintln (os_File filename) message), None),
         mkWorld (clock w) (reads w) (stdout w) (stderr w)
                 (match files w !! filename with
                  | Some _ => files w
                  | None => <[filename := EmptyString]> (files w)
                  end)
                 (blocked w) (opened w ++ [filename]) (events w))
    end.
Proof.
  unfold FileOutput. rewrite run_bind. unfold eval, exec, OpenFileAppend.
  by destruct (blocked w !! filename).
Qed.

(** C9: [FileOutput] makes one open call for the named file, for appending
    and with creation.  When the file can be opened or created it returns
    a sink and no error: the file exists from then on, with the contents it
    had, and every call of the sink appends the message and a newline to
    it without opening anything again.  It returns an error and no sink
    exactly when the file cannot be opened or created; the error wraps the
    one of the open call. *)
Theorem C9_file_output_opens_once_and_appends (filename : string) (w : World) :
  let r := eval (FileOutput filename) w in
  let w1 := exec (FileOutput filename) w in
  opened w1 = opened w ++ [filename]
  ∧ (is_Some r.2 ↔ is_Some (blocked w !! filename))
  ∧ (r.1 = None ↔ is_Some r.2)
  ∧ (∀ e, blocked w !! filename = Some e →
       r = (None,
            Some (Errorf ("failed to open log file " +:+ filename
                          +:+ ": open " +:+ filename +:+ ": " +:+ Errno_Error e)
                         (PathError "open" filename e)))
       ∧ files w1 = files w)
  ∧ (blocked w !! filename = None →
       files w1 !! filename = Some (default EmptyString (files w !! filename))
       ∧ ∀ other, other ≠ filename → files w1 !! other = files w !! other)
  ∧ (∀ sink, r.1 = Some sink →
       ∀ (level : LogLevel) (message : string) (w2 : World),
         let w3 := exec (sink level message) w2 in
         opened w3 = opened w2
         ∧ files w3 = alter (λ old, old +:+ (message +:+ newline)) filename (files w2)
         ∧ (∀ old, files w2 !! filename = Some old →
              files w3 !! filename = Some (old +:+ message +:+ newline))
         ∧ (∀ other, other ≠ filename → files w3 !! other = files w2 !! other)
         ∧ stdout w3 = stdout w2 ∧ stderr w3 = stderr w2).
Proof.
  intros r w1. subst r w1. unfold eval, exec. rewrite FileOutput_run.
  destruct (blocked w !! filename) as [e|] eqn:Hb; cbn [fst snd].
  - split; [done|]. split; [split; eauto|]. split; [split; eauto|].
    split; [|split; [done|by intros sink ?]].
    intros e' [= <-]. split; [|done]. by do 3 f_equal.
  - split; [done|].
    split; [split; intros [? ?]; done|].
    split; [split; [done|intros [? ?]; done]|].
    split; [done|]. split.
    + intros _. destruct (files w !! filename) as [c|] eqn:Hf; cbn [files].
      * by rewrite Hf.
      * rewrite lookup_insert_eq. split; [done|].
        intros other Hne. by rewrite lookup_insert_ne.
    + intros sink [= <-] level message w2. cbn.
      split; [done|]. split; [done|]. split; [|split; [|done]].
      * intros old Hold. by rewrite lookup_alter_eq, Hold.
      * intros other Hne. by rewrite lookup_alter_ne.
Qed.

(** Two lines through one file sink, and a blocked path. *)
Example file_scenario :
  (let '(r, w1) := FileOutput "app.log" (initial "T") in
   match r.1 with
   | Some sink =>
       let w2 := exec (_ ← sink Info "one"; sink Debug "two") w1 in
       files w2 !! "app.log" = Some ("one" +:+ newline +:+ "two" +:+ newline)
       ∧ opened w2 = ["app.log"]
   | None => False
   end)
  ∧ eval (FileOutput "/etc/app.log")
         (mkWorld (λ _, "T") 0 EmptyString EmptyString ∅
                  {["/etc/app.log" := EACCES]} [] [])
    = (None,
       Some (Errorf
               "failed to open log file /etc/app.log: open /etc/app.log: permission denied"
               (PathError "open" "/etc/app.log" EACCES))).
Proof. split; [split|]; vm_compute; reflexivity. Qed.

(** ** Levels outside the scale *)

Lemma textLine_Contains_level (prefix timestamp logLevel message : string)
    (info : InfoMap) :
  Contains (textLine prefix timestamp logLevel message info)
           ("[" +:+ logLevel +:+ "]").
Proof.
  rewrite textLine_eq.
  exists ((if bool_decide (prefix = EmptyString) then EmptyString
           else "[" +:+ prefix +:+ "] ")
          +:+ "[" +:+ timestamp +:+ "] ").
  eexists. string_norm. reflexivity.
Qed.

Lemma jsonData_level (prefix timestamp logLevel message : string)
    (info : InfoMap) :
  entries info !! "level" = None →
  jsonData prefix timestamp logLevel message info !! "level"
  = Some (VString logLevel).
Proof.
  intros Hk. rewrite jsonData_union, lookup_union_r by done.
  by rewrite baseData_lookup.
Qed.

(** Refuting that a string of known bytes holds a given substring. *)
Ltac no_substring H :=
  let front := fresh "front" in
  let rest := fresh "rest" in
  destruct H as (front & rest & H);
  repeat (destruct front as [|? front];
          [rewrite ?append_nil_l, ?append_cons in H; discriminate H
          |rewrite append_cons in H; injection H as _ H]);
  destruct front; rewrite ?append_nil_l, ?append_cons in H; discriminate H.

(** C10, as stated, fails on its second half: what the formatted output
    holds for a level below [Emergency] depends on the logger.  With a
    custom callback the output is what the callback returns; in JSON mode
    a context that cannot be encoded gives the empty string, and a context
    key [level] takes the place of the name. *)
Lemma C10_output_without_unknown_counterexample :
  ¬ (∀ (l : Logger.t) (level : LogLevel) (message : string)
       (additionalInfo : list InfoMap) (w : World),
       level < Emergency →
       Emergency ≤ Logger.level l ≤ Debug →
       Contains (eval (formatMessage l level message (infoOf additionalInfo)) w)
                "UNKNOWN")
  ∧ eval (formatMessage customLogger (-1) "m" (infoOf [])) (initial "T")
    = "CUSTOM: m"
  ∧ eval (formatMessage jsonLogger (-1) "m" (infoOf [Some {["k" := VChan 0]}]))
         (initial "T")
    = EmptyString
  ∧ eval (formatMessage jsonLogger (-1) "m"
            (infoOf [Some {["level" := VString "x"]}])) (initial "T")
    = "{" +:+ quoted "level" +:+ ":" +:+ quoted "x" +:+ ","
      +:+ quoted "message" +:+ ":" +:+ quoted "m" +:+ ","
      +:+ quoted "timestamp" +:+ ":" +:+ quoted "T" +:+ "}".
Proof.
  assert (eval (formatMessage customLogger (-1) "m" (infoOf [])) (initial "T")
          = "CUSTOM: m") as Hout by (vm_compute; reflexivity).
  split; [|split; [exact Hout|split; vm_compute; reflexivity]].
  intros H.
  assert (-1 < Emergency) as Hlow by reflexivity.
  assert (Emergency ≤ Logger.level customLogger ≤ Debug) as Hrange
    by (split; discriminate).
  specialize (H customLogger (-1) "m" [] (initial "T") Hlow Hrange).
  rewrite Hout in H. no_substring H.
Qed.

(** C10, amended: the level of a call is not validated.  A level below
    [Emergency] passes the threshold test of every logger whose threshold
    is one of the eight levels, so the message is formatted and handed to
    every sink; the name of such a level is [UNKNOWN], and the built-in
    formats write it: the text line holds it in brackets, and the JSON
    object has it as the member [level] unless a context key [level] takes
    its place (or the context cannot be encoded and the output is empty).
    A custom callback is given the level itself and decides the output. *)
Theorem C10_level_below_emergency_is_emitted_as_unknown
    (l : Logger.t) (outs : list OutputFunc) (level : LogLevel)
    (message : string) (additionalInfo : list InfoMap) (w : World) :
  level < Emergency →
  Emergency ≤ Logger.level l ≤ Debug →
  Logger.outputs l = instrument outs →
  Forall silentSink outs →
  let info := infoOf additionalInfo in
  let timestamp := clock w (reads w) in
  let s := eval (formatMessage l level message info) w in
  let w1 := exec (formatMessage l level message info) w in
  shouldLog l level = true
  ∧ Log l level message additionalInfo w = outputMessage l level s w1
  ∧ events (exec (Log l level message additionalInfo) w)
    = events w1 ++ imap (λ i _, Called i level s) outs
  ∧ LogLevel_String level = "UNKNOWN"
  ∧ (∀ cb, Logger.formatCallback l = Some cb →
       s = eval (cb level message info) w)
  ∧ (Logger.formatCallback l = None → Logger.format l ≠ JSONOutput →
       s = textLine (Logger.prefix l) timestamp "UNKNOWN" message info
       ∧ Contains s "[UNKNOWN]")
  ∧ (Logger.formatCallback l = None → Logger.format l = JSONOutput →
       s = json.text (json.encodeObject
             (jsonData (Logger.prefix l) timestamp "UNKNOWN" message info))
       ∧ (entries info !! "level" = None →
            (jsonData (Logger.prefix l) timestamp "UNKNOWN" message info
               !! "level")
            = Some (VString "UNKNOWN"))
       ∧ (entries info !! "level" = None →
          map_Forall (λ _ v, is_Some (json.encodeValue v)) (entries info) →
            ∃ fields,
              s = "{" +:+ json.join "," fields +:+ "}"
              ∧ json.member "level" (quoted "UNKNOWN") ∈ fields)
       ∧ (∀ x, entries info !! "level" = Some x →
            (jsonData (Logger.prefix l) timestamp "UNKNOWN" message info
               !! "level")
            = Some x)
       ∧ (¬ map_Forall (λ _ v, is_Some (json.encodeValue v)) (entries info) →
            s = EmptyString)).
Proof.
  intros Hlow Hrange Houts Hsilent info timestamp s w1.
  assert ((level <=? Logger.level l) = true) as Hle by (apply Z.leb_le; lia).
  assert (LogLevel_String level = "UNKNOWN") as Hname
    by (apply LogLevel_String_unknown; by left).
  split; [done|]. split; [by rewrite Log_run, Hle|].
  split; [|split; [done|split; [|split]]].
  - rewrite exec_Log, Hle. unfold outputMessage. rewrite Houts.
    by apply events_forEach_instrument.
  - intros cb Hcb. subst s. by rewrite (formatMessage_callback l cb).
  - intros Hcb Hfmt.
    assert (s = textLine (Logger.prefix l) timestamp "UNKNOWN" message info)
      as Hs.
    { subst s. unfold eval. rewrite formatMessage_builtin, Hname by done.
      by destruct (String.eqb_spec (Logger.format l) JSONOutput). }
    split; [done|]. rewrite Hs. apply textLine_Contains_level.
  - intros Hcb Hfmt.
    set (data := jsonData (Logger.prefix l) timestamp "UNKNOWN" message info).
    assert (s = json.text (json.encodeObject data)) as Hs.
    { subst s data. unfold eval.
      by rewrite formatMessage_builtin, Hname, Hfmt. }
    assert (map_Forall (λ _ v, is_Some (json.encodeValue v)) (entries info) ↔
            is_Some (json.encodeObject data)) as Henc.
    { rewrite encodeObject_is_Some. subst data. rewrite jsonData_union.
      split.
      - intros Hall k v [Hk|[_ Hk]]%lookup_union_Some_raw; [by apply (Hall k)|].
        rewrite baseData_lookup in Hk.
        repeat case_bool_decide; simplify_eq; by eexists.
      - intros Hall k v Hk. apply (Hall k). by apply lookup_union_Some_l. }
    split; [done|]. split; [apply jsonData_level|]. split; [|split].
    + intros Hk Hall. apply Henc in Hall as [j Hj].
      destruct (encodeObject_members data j Hj) as (fields & -> & _ & _ & Hmem).
      exists fields. split; [by rewrite Hs, Hj|].
      destruct (Hmem "level" (VString "UNKNOWN")) as (venc & Hv & Hin);
        [by apply jsonData_level|].
      cbn in Hv. simplify_eq. exact Hin.
    + intros x Hx. subst data. rewrite jsonData_union.
      by apply lookup_union_Some_l.
    + intros Hnot. rewrite Hs.
      destruct (json.encodeObject data) as [j|] eqn:Hj; [|done].
      exfalso. apply Hnot, Henc. eauto.
Qed.

Lemma C10_level_below_emergency_is_emitted_as_unknown_witness :
  -1 < Emergency
  ∧ Emergency ≤ Logger.level svcLogger ≤ Debug
  ∧ Logger.outputs svcLogger = instrument [ConsoleOutput]
  ∧ Forall silentSink [ConsoleOutput]
  ∧ events (exec (Log svcLogger (-1) "m" []) (initial "T"))
    = [Called 0 (-1) "[svc] [T] [UNKNOWN] m"].
Proof.
  assert (-1 < Emergency) as Hlow by reflexivity.
  assert (Emergency ≤ Logger.level svcLogger ≤ Debug) as Hrange
    by (split; discriminate).
  assert (Forall silentSink [ConsoleOutput]) as Hs
    by (repeat constructor; apply silent_ConsoleOutput).
  split; [exact Hlow|]. split; [exact Hrange|].
  split; [reflexivity|]. split; [exact Hs|].
  exact (proj1 (proj2 (proj2
           (C10_level_below_emergency_is_emitted_as_unknown svcLogger
              [ConsoleOutput] (-1) "m" [] (initial "T")
              Hlow Hrange eq_refl Hs)))).
Defined.

(** * Further properties of the package *)

(** ** Names of levels *)

Lemma in_scale_cases (a : LogLevel) :
  Emergency ≤ a ≤ Debug →
  a = 0 ∨ a = 1 ∨ a = 2 ∨ a = 3 ∨ a = 4 ∨ a = 5 ∨ a = 6 ∨ a = 7.
Proof. unfold Emergency, Debug. lia. Qed.

Lemma LogLevel_String_known (a : LogLevel) :
  Emergency ≤ a ≤ Debug → LogLevel_String a ≠ "UNKNOWN".
Proof.
  intros Ha. apply in_scale_cases in Ha.
  destruct Ha as [->|[->|[->|[->|[->|[->|[->| ->]]]]]]]; discriminate.
Qed.

(** X1: [String] gives the eight levels eight different names and gives
    [UNKNOWN] to exactly the integers outside the scale: two levels have
    the same name if and only if they are equal or both outside 0..7. *)
Theorem X1_level_names_distinct (a b : LogLevel) :
  (LogLevel_String a = "UNKNOWN" ↔ a < Emergency ∨ Debug < a)
  ∧ (LogLevel_String a = LogLevel_String b
     ↔ a = b ∨ ((a < Emergency ∨ Debug < a) ∧ (b < Emergency ∨ Debug < b))).
Proof.
  assert (∀ c, LogLevel_String c = "UNKNOWN" ↔ c < Emergency ∨ Debug < c)
    as Hunk.
  { intros c. split; [|apply LogLevel_String_unknown].
    intros Hc. destruct (decide (Emergency ≤ c ≤ Debug)) as [Hin|Hout].
    - by apply LogLevel_String_known in Hin.
    - lia. }
  split; [apply Hunk|]. split.
  - intros Heq.
    destruct (decide (Emergency ≤ a ≤ Debug)) as [Ha|Ha];
      destruct (decide (Emergency ≤ b ≤ Debug)) as [Hb|Hb].
    + left. apply in_scale_cases in Ha, Hb.
      destruct Ha as [->|[->|[->|[->|[->|[->|[->| ->]]]]]]];
        destruct Hb as [->|[->|[->|[->|[->|[->|[->| ->]]]]]]];
        first [reflexivity | discriminate Heq].
    + exfalso. apply (LogLevel_String_known a Ha).
      rewrite Heq. apply LogLevel_String_unknown. lia.
    + exfalso. apply (LogLevel_String_known b Hb).
      rewrite <- Heq. apply LogLevel_String_unknown. lia.
    + right. lia.
  - intros [->|[Ha Hb]]; [done|].
    by rewrite !LogLevel_String_unknown.
Qed.

(** ** Loggers as [NewLogger] builds them *)

Lemma NewLogger_level_range (options : LogOptions.t) :
  Emergency ≤ Logger.level (NewLogger options) ≤ Debug.
Proof.
  destruct options as [lv fmt cb outs pfx]. unfold NewLogger.
  cbn [LogOptions.Level LogOptions.Format LogOptions.FormatCallback
       LogOptions.Outputs LogOptions.Prefix Logger.level].
  destruct (Z.ltb_spec lv Emergency), (Z.gtb_spec lv Debug); cbn [orb];
    repeat match goal with
           | |- context [if ?b then _ else _] => destruct b
           end; cbn; unfold Emergency, Info, Debug in *; lia.
Qed.

Lemma NewLogger_level (options : LogOptions.t) :
  Logger.level (NewLogger options)
  = if bool_decide (Emergency ≤ LogOptions.Level options ≤ Debug)
    then LogOptions.Level options else Info.
Proof.
  destruct options as [lv fmt cb outs pfx]. unfold NewLogger.
  cbn [LogOptions.Level LogOptions.Format LogOptions.FormatCallback
       LogOptions.Outputs LogOptions.Prefix Logger.level].
  destruct (Z.ltb_spec lv Emergency), (Z.gtb_spec lv Debug); cbn [orb];
    case_bool_decide; try lia;
    repeat match goal with
           | |- context [if ?b then _ else _] => destruct b
           end; reflexivity.
Qed.

(** X2: whatever the options, the logger that [NewLogger] returns has a
    threshold on the scale, a format that is not empty and at least one
    sink; options that already have all three are taken over unchanged, so
    building a logger again from the fields of one changes nothing. *)
Theorem X2_NewLogger_invariants (options : LogOptions.t) :
  let l := NewLogger options in
  Emergency ≤ Logger.level l ≤ Debug
  ∧ Logger.format l ≠ EmptyString
  ∧ Logger.outputs l ≠ []
  ∧ NewLogger (optionsOf l) = l
  ∧ (Emergency ≤ LogOptions.Level options ≤ Debug
     ∧ LogOptions.Format options ≠ EmptyString
     ∧ LogOptions.Outputs options ≠ []
     ↔ optionsOf l = options).
Proof.
  intros l.
  assert (Emergency ≤ Logger.level l ≤ Debug) as Hlv
    by apply NewLogger_level_range.
  assert (Logger.format l ≠ EmptyString) as Hfmt.
  { subst l. destruct options as [lv fmt cb outs pfx]. unfold NewLogger.
    cbn [LogOptions.Level LogOptions.Format LogOptions.FormatCallback
         LogOptions.Outputs LogOptions.Prefix].
    destruct ((_ <? _) || (_ >? _)); cbn;
      destruct (String.eqb_spec fmt EmptyString); cbn;
      destruct outs; cbn; done. }
  assert (Logger.outputs l ≠ []) as Houts.
  { subst l. destruct options as [lv fmt cb outs pfx]. unfold NewLogger.
    cbn [LogOptions.Level LogOptions.Format LogOptions.FormatCallback
         LogOptions.Outputs LogOptions.Prefix].
    destruct ((_ <? _) || (_ >? _)); cbn;
      destruct (String.eqb_spec fmt EmptyString); cbn;
      destruct outs; cbn; done. }
  assert (∀ o, Emergency ≤ LogOptions.Level o ≤ Debug →
               LogOptions.Format o ≠ EmptyString →
               LogOptions.Outputs o ≠ [] →
               optionsOf (NewLogger o) = o) as Hfix.
  { intros [lv fmt cb outs pfx]. cbn. intros Hl Hf Ho. unfold NewLogger.
    cbn [LogOptions.Level LogOptions.Format LogOptions.FormatCallback
         LogOptions.Outputs LogOptions.Prefix Logger.level].
    destruct (Z.ltb_spec lv Emergency); [lia|].
    destruct (Z.gtb_spec lv Debug); [lia|]. cbn.
    destruct (String.eqb_spec fmt EmptyString); [done|]. cbn.
    by destruct outs. }
  split; [done|]. split; [done|]. split; [done|]. split.
  - specialize (Hfix (optionsOf l) Hlv Hfmt Houts).
    destruct (NewLogger (optionsOf l)) as [a b c d e].
    destruct l as [a' b' c' d' e']. cbn in Hfix. by simplify_eq.
  - split.
    + intros (Hl & Hf & Ho). by apply Hfix.
    + intros Heq. rewrite <- Heq. by cbn.
Qed.

(** X3: a logger from [NewLogger] never filters an emergency: the level
    [Emergency], and any level below it, passes the threshold of every
    such logger, whereas [Debug] passes exactly when the options ask for
    the threshold [Debug]. *)
Theorem X3_NewLogger_emergency_always_passes
    (options : LogOptions.t) (message : string)
    (additionalInfo : list InfoMap) (w : World) :
  let l := NewLogger options in
  let format := formatMessage l Emergency message (infoOf additionalInfo) in
  (∀ level, level ≤ Emergency → shouldLog l level = true)
  ∧ Logger_Emergency l message additionalInfo w
    = outputMessage l Emergency (eval format w) (exec format w)
  ∧ (shouldLog l Debug = true ↔ LogOptions.Level options = Debug)
  ∧ (LogOptions.Level options ≠ Debug →
       Logger_Debug l message additionalInfo w = (tt, w)).
Proof.
  intros l format.
  pose proof (NewLogger_level_range options) as Hr. fold l in Hr.
  assert (shouldLog l Debug = true ↔ LogOptions.Level options = Debug) as Hd.
  { unfold shouldLog. rewrite Z.leb_le.
    subst l. rewrite NewLogger_level.
    case_bool_decide; unfold Emergency, Info, Debug in *; lia. }
  split; [|split; [|split; [done|]]].
  - intros level Hle. unfold shouldLog. apply Z.leb_le. lia.
  - unfold Logger_Emergency. rewrite Log_run.
    by rewrite (proj2 (Z.leb_le _ _)) by lia.
  - intros Hne. unfold Logger_Debug. rewrite Log_run.
    destruct (Debug <=? Logger.level l) eqn:Hle; [|done].
    exfalso. apply Hne, Hd. done.
Qed.

(** ** Contexts that the built-in formats cannot tell apart *)

Lemma Marshal_entries (i1 i2 : InfoMap) :
  entries i1 = entries i2 → len i1 ≠ 0%nat →
  json.Marshal i1 = json.Marshal i2.
Proof.
  intros Heq Hlen.
  assert (len i2 ≠ 0%nat) as Hlen2 by (unfold len in *; by rewrite <- Heq).
  destruct i1 as [m1|], i2 as [m2|]; cbn in *;
    [by subst|by rewrite ?map_size_empty in *..].
Qed.

Lemma textLine_entries (prefix timestamp logLevel message : string)
    (i1 i2 : InfoMap) :
  entries i1 = entries i2 →
  textLine prefix timestamp logLevel message i1
  = textLine prefix timestamp logLevel message i2.
Proof.
  intros Heq. unfold textLine.
  assert (len i1 = len i2) as Hlen by (unfold len; by rewrite Heq).
  rewrite <- Hlen. destruct (Nat.ltb_spec 0 (len i1)); [|done].
  rewrite (Marshal_entries i1 i2) by (done || lia). done.
Qed.

Lemma formatMessage_entries (l : Logger.t) (level : LogLevel)
    (message : string) (i1 i2 : InfoMap) (w : World) :
  Logger.formatCallback l = None → entries i1 = entries i2 →
  formatMessage l level message i1 w = formatMessage l level message i2 w.
Proof.
  intros Hcb Heq. rewrite !formatMessage_builtin by done.
  unfold jsonData. rewrite Heq.
  by rewrite (textLine_entries _ _ _ _ i1 i2).
Qed.

(** X4: for every logger, maps passed after the first one are ignored.
    The built-in formats read a context only through its entries: with no
    custom callback, a call without a context, a call with the [nil] map
    and a call with an empty map do the same, and two contexts with the
    same entries give the same output. *)
Theorem X4_builtin_formats_see_entries_only
    (l : Logger.t) (level : LogLevel) (message : string) (i1 i2 : InfoMap)
    (more : list InfoMap) (w : World) :
  Log l level message (i1 :: more) w = Log l level message [i1] w
  ∧ (Logger.formatCallback l = None →
       Log l level message [] w = Log l level message [None] w
       ∧ Log l level message [] w = Log l level message [Some ∅] w
       ∧ (entries i1 = entries i2 →
            formatMessage l level message i1 w
            = formatMessage l level message i2 w
            ∧ Log l level message [i1] w = Log l level message [i2] w)).
Proof.
  split; [done|]. intros Hcb.
  assert (∀ a b, entries a = entries b →
            Log l level message [a] w = Log l level message [b] w) as Hlog.
  { intros a b Hab. rewrite !Log_run. cbn [infoOf]. unfold eval, exec.
    by rewrite (formatMessage_entries l level message a b). }
  split; [|split; [done|]].
  - exact (eq_sym (Hlog None make_map eq_refl)).
  - intros Heq. split; [by apply formatMessage_entries|by apply Hlog].
Qed.

Lemma X4_builtin_formats_see_entries_only_witness :
  Logger.formatCallback svcLogger = None
  ∧ entries None = entries (Some ∅)
  ∧ Log svcLogger Error "y" [None] (initial "T")
    = Log svcLogger Error "y" [Some ∅] (initial "T")
  ∧ Log customLogger Error "y" [Some ∅; None] (initial "T")
    = Log customLogger Error "y" [Some ∅] (initial "T").
Proof.
  split; [reflexivity|]. split; [reflexivity|]. split.
  - exact (proj2 (proj2 (proj2 (proj2
             (X4_builtin_formats_see_entries_only svcLogger Error "y"
                None (Some ∅) [] (initial "T")) eq_refl)) eq_refl)).
  - exact (proj1 (X4_builtin_formats_see_entries_only customLogger Error "y"
                    (Some ∅) None [None] (initial "T"))).
Defined.

(** ** Console sinks *)

(** X5: the three sinks that write to the console agree: the default sink
    of [NewLogger], the sink of [ConsoleOutput] and [SplitOutput] over
    standard-error and standard-output do the same on every call. *)
Theorem X5_console_sinks_agree
    (level : LogLevel) (message : string) (w : World) :
  ConsoleOutput level message w = defaultConsoleOutput level message w
  ∧ SplitOutput os_Stderr os_Stdout level message w
    = ConsoleOutput level message w
  ∧ (ConsoleOutput level message w
     = if bool_decide (level ≤ Error)
       then WriterOutput os_Stderr level message w
       else WriterOutput os_Stdout level message w).
Proof.
  unfold ConsoleOutput, defaultConsoleOutput, SplitOutput, WriterOutput,
    Fprintln, Fprint.
  destruct (Z.leb_spec level Error).
  - by rewrite bool_decide_eq_true_2.
  - rewrite bool_decide_eq_false_2; [done|lia].
Qed.

Lemma ConsoleOutput_run (level : LogLevel) (message : string) (w : World) :
  ConsoleOutput level message w
  = (tt,
     if bool_decide (level ≤ Error)
     then mkWorld (clock w) (reads w) (stdout w)
                  (stderr w +:+ (message +:+ newline))
                  (files w) (blocked w) (opened w) (events w)
     else mkWorld (clock w) (reads w)
                  (stdout w +:+ (message +:+ newline)) (stderr w)
                  (files w) (blocked w) (opened w) (events w)).
Proof.
  unfold ConsoleOutput. destruct (Z.leb_spec level Error).
  - by rewrite bool_decide_eq_true_2.
  - rewrite bool_decide_eq_false_2; [done|lia].
Qed.

(** X6: over any sequence of calls, [ConsoleOutput] splits the messages
    between the two streams without losing or reordering any: standard-error
    grows by the lines of the calls of level at most [Error], in the order
    of the calls, standard-output by the lines of all other calls, and
    nothing else changes. *)
Theorem X6_ConsoleOutput_partitions_calls
    (cs : list (LogLevel * string)) (w : World) :
  let w' := exec (forEach cs (λ c, ConsoleOutput c.1 c.2)) w in
  stderr w' = stderr w +:+ unlines (filter (λ c, c.1 ≤ Error) cs).*2
  ∧ stdout w' = stdout w +:+ unlines (filter (λ c, Error < c.1) cs).*2
  ∧ files w' = files w ∧ opened w' = opened w ∧ events w' = events w
  ∧ reads w' = reads w ∧ clock w' = clock w ∧ blocked w' = blocked w.
Proof.
  revert w. induction cs as [|[lv msg] cs IH]; intros w.
  - cbn. by rewrite !append_nil_r.
  - cbn [forEach]. cbv zeta. rewrite exec_bind.
    destruct (IH (exec (ConsoleOutput lv msg) w))
      as (He & Ho & Hf & Hop & Hev & Hr & Hc & Hb).
    cbv zeta in He, Ho, Hf, Hop, Hev, Hr, Hc, Hb.
    cbn [fst snd]. rewrite He, Ho, Hf, Hop, Hev, Hr, Hc, Hb.
    unfold exec at 1 2 3 4 5 6 7 8. rewrite ConsoleOutput_run.
    rewrite !filter_cons. cbn [fst snd].
    case_bool_decide as Hle.
    + rewrite decide_True, decide_False by (done || lia).
      cbn [snd stderr stdout files opened events reads clock blocked
           fmap list_fmap unlines].
      split; [by string_norm|]. done.
    + rewrite decide_False, decide_True by (done || lia).
      cbn [snd stderr stdout files opened events reads clock blocked
           fmap list_fmap unlines].
      split; [done|]. split; [by string_norm|]. done.
Qed.

(** ** Writer and file sinks *)

(** X7: the sink of [WriterOutput] does not look at the level; the sink
    that [FileOutput] returns is [WriterOutput] on the file it opened; and
    [SplitOutput] with one writer on both sides is [WriterOutput] on it. *)
Theorem X7_WriterOutput_ignores_level
    (writer : Writer) (filename : string) (level level' : LogLevel)
    (message : string) (w : World) :
  WriterOutput writer level message w = WriterOutput writer level' message w
  ∧ WriterOutput writer level message w = Write writer (message +:+ newline) w
  ∧ SplitOutput writer writer level message w
    = WriterOutput writer level message w
  ∧ (∀ sink, (eval (FileOutput filename) w).1 = Some sink →
       sink = WriterOutput (os_File filename)).
Proof.
  split; [done|]. split; [done|]. split.
  - unfold SplitOutput, WriterOutput. by destruct (level <=? Error).
  - intros sink. unfold eval. rewrite FileOutput_run.
    destruct (blocked w !! filename); cbn; [done|]. by intros [= <-].
Qed.

Lemma FileOutput_sink (filename : string) (sink : OutputFunc) (w : World) :
  (eval (FileOutput filename) w).1 = Some sink →
  blocked w !! filename = None
  ∧ sink = (λ (level : LogLevel) message, Fprintln (os_File filename) message).
Proof.
  unfold eval. rewrite FileOutput_run.
  destruct (blocked w !! filename); cbn; [done|]. by intros [= <-].
Qed.

(** X8: through the sink of a file that [FileOutput] opened, any sequence
    of calls adds the messages to the end of that file as lines, in the
    order of the calls and whatever their levels; the earlier contents stay
    in front, and no other file, neither stream and no further open call is
    involved. *)
Theorem X8_file_sink_appends_lines_in_order
    (filename : string) (sink : OutputFunc) (w : World)
    (cs : list (LogLevel * string)) (old : string) (w2 : World) :
  (eval (FileOutput filename) w).1 = Some sink →
  files w2 !! filename = Some old →
  let w3 := exec (forEach cs (λ c, sink c.1 c.2)) w2 in
  files w3 !! filename = Some (old +:+ unlines cs.*2)
  ∧ (∀ other, other ≠ filename → files w3 !! other = files w2 !! other)
  ∧ stdout w3 = stdout w2 ∧ stderr w3 = stderr w2
  ∧ opened w3 = opened w2 ∧ events w3 = events w2.
Proof.
  intros Hsink. apply FileOutput_sink in Hsink as [_ ->].
  revert old w2. induction cs as [|[lv msg] cs IH]; intros old w2 Hold.
  - cbn. by rewrite append_nil_r.
  - cbn [forEach]. cbv zeta. rewrite exec_bind. cbn [fst snd].
    set (w2' := exec (Fprintln (os_File filename) msg) w2).
    assert (files w2' !! filename = Some (old +:+ msg +:+ newline)) as Hold'.
    { subst w2'. cbn. by rewrite lookup_alter_eq, Hold. }
    destruct (IH _ w2' Hold') as (Hf & Ho & Hso & Hse & Hop & Hev).
    cbv zeta in Hf, Ho, Hso, Hse, Hop, Hev. cbn [fst snd] in *.
    rewrite Hf, Hso, Hse, Hop, Hev.
    split; [cbn [fmap list_fmap unlines snd]; by string_norm|].
    split; [|done].
    intros other Hne. rewrite Ho by done. subst w2'. cbn.
    by rewrite lookup_alter_ne.
Qed.

Lemma X8_file_sink_appends_lines_in_order_witness :
  let w1 := exec (FileOutput "app.log") (initial "T") in
  let sink : OutputFunc := WriterOutput (os_File "app.log") in
  (eval (FileOutput "app.log") (initial "T")).1 = Some sink
  ∧ files w1 !! "app.log" = Some EmptyString
  ∧ files (exec (forEach [(Info, "one"); (Error, "two")] (λ c, sink c.1 c.2)) w1)
      !! "app.log"
    = Some (EmptyString +:+ unlines [(Info, "one"); (Error, "two")].*2).
Proof.
  intros w1 sink.
  assert ((eval (FileOutput "app.log") (initial "T")).1 = Some sink) as H1
    by reflexivity.
  assert (files w1 !! "app.log" = Some EmptyString) as H2
    by (vm_compute; reflexivity).
  split; [exact H1|]. split; [exact H2|].
  exact (proj1 (X8_file_sink_appends_lines_in_order "app.log" sink
                  (initial "T") [(Info, "one"); (Error, "two")]
                  EmptyString w1 H1 H2)).
Defined.

(** ** The algebra of composed sinks *)

Lemma forEach_app_run {A} (l1 l2 : list A) (body : A → IO unit) (w : World) :
  forEach (l1 ++ l2) body w = forEach l2 body (exec (forEach l1 body) w).
Proof.
  revert w. induction l1 as [|x l1 IH]; intros w; [done|].
  cbn [forEach app]. by rewrite run_bind, IH, exec_bind.
Qed.

Lemma run_unit (m : IO unit) (w : World) : m w = (tt, exec m w).
Proof. unfold exec. by destruct (m w) as [[] w']. Qed.

(** X9: multiplex sinks compose like lists.  The empty multiplex sink does
    nothing, a multiplex sink of one sink is that sink, a multiplex sink of
    two lists in a row does the first list and then the second, and a
    multiplex sink nested in another can be flattened. *)
Theorem X9_MultiOutput_composes
    (output : OutputFunc) (outs1 outs2 : list OutputFunc)
    (level : LogLevel) (message : string) (w : World) :
  MultiOutput [] level message w = (tt, w)
  ∧ MultiOutput [output] level message w = output level message w
  ∧ MultiOutput (outs1 ++ outs2) level message w
    = MultiOutput outs2 level message
        (exec (MultiOutput outs1 level message) w)
  ∧ MultiOutput (MultiOutput outs1 :: outs2) level message w
    = MultiOutput (outs1 ++ outs2) level message w
  ∧ MultiOutput (outs1 ++ [MultiOutput outs2]) level message w
    = MultiOutput (outs1 ++ outs2) level message w.
Proof.
  split; [done|]. split; [|split; [|split]].
  - unfold MultiOutput. cbn [forEach]. rewrite run_bind.
    by rewrite (run_unit (output level message) w).
  - unfold MultiOutput. apply forEach_app_run.
  - unfold MultiOutput at 1 3. rewrite forEach_app_run.
    cbn [forEach]. by rewrite run_bind.
  - unfold MultiOutput at 1 3. rewrite !forEach_app_run.
    cbn [forEach]. rewrite run_bind. unfold MultiOutput.
    symmetry. apply run_unit.
Qed.

(** X10: level filters compose to the stricter one and commute: a filter
    with threshold [a] around a filter with threshold [b] is the filter
    with the smaller of the two thresholds. *)
Theorem X10_LevelFilterOutput_nested_is_min
    (a b : LogLevel) (output : OutputFunc) (level : LogLevel)
    (message : string) (w : World) :
  LevelFilterOutput a (LevelFilterOutput b output) level message w
  = LevelFilterOutput (Z.min a b) output level message w
  ∧ LevelFilterOutput a (LevelFilterOutput b output) level message w
    = LevelFilterOutput b (LevelFilterOutput a output) level message w
  ∧ LevelFilterOutput a (LevelFilterOutput a output) level message w
    = LevelFilterOutput a output level message w.
Proof.
  rewrite !LevelFilterOutput_run.
  repeat case_bool_decide; try lia; done.
Qed.

Lemma forEach_fmap {A B} (f : A → B) (l : list A) (body : B → IO unit)
    (w : World) :
  forEach (f <$> l) body w = forEach l (λ x, body (f x)) w.
Proof.
  revert w. induction l as [|x l IH]; intros w; [done|].
  cbn [forEach fmap list_fmap]. rewrite !run_bind. apply IH.
Qed.

Lemma forEach_skip {A} (l : list A) (w : World) :
  forEach l (λ _, mret tt) w = (tt, w).
Proof. induction l as [|x l IH]; [done|]. cbn [forEach]. by rewrite run_bind. Qed.

Lemma forEach_ext {A} (l : list A) (body1 body2 : A → IO unit) (w : World) :
  (∀ x w, body1 x w = body2 x w) →
  forEach l body1 w = forEach l body2 w.
Proof.
  intros Hb. revert w. induction l as [|x l IH]; intros w; [done|].
  cbn [forEach]. rewrite !run_bind. unfold eval, exec. rewrite Hb. apply IH.
Qed.

(** X11: a level filter around a multiplex sink is the multiplex sink of
    the filtered sinks: filtering once in front of the fan-out and
    filtering each branch give the same calls. *)
Theorem X11_LevelFilterOutput_distributes_over_MultiOutput
    (minLevel : LogLevel) (outs : list OutputFunc) (level : LogLevel)
    (message : string) (w : World) :
  LevelFilterOutput minLevel (MultiOutput outs) level message w
  = MultiOutput (LevelFilterOutput minLevel <$> outs) level message w.
Proof.
  unfold MultiOutput. rewrite forEach_fmap, LevelFilterOutput_run.
  case_bool_decide as Hle.
  - apply forEach_ext. intros output w0. rewrite LevelFilterOutput_run.
    by rewrite bool_decide_eq_true_2.
  - rewrite <- (forEach_skip outs w). apply forEach_ext.
    intros output w0. rewrite LevelFilterOutput_run.
    by rewrite bool_decide_eq_false_2.
Qed.

(** ** A logger in front of filtering sinks *)

Lemma formatMessage_set_outputs (l : Logger.t) (outs : list OutputFunc)
    (level : LogLevel) (message : string) (info : InfoMap) :
  formatMessage (Logger.set_outputs outs l) level message info
  = formatMessage l level message info.
Proof. by destruct l. Qed.

(** X12: the threshold of the logger is tested before formatting, the
    threshold of a filtering sink after it.  When the sink's threshold is
    no stricter than the logger's, the filter is redundant; when a message
    passes the logger and not the sink, it is still formatted (the clock is
    read, a custom callback runs) and then dropped. *)
Theorem X12_logger_threshold_before_sink_filter
    (l : Logger.t) (minLevel : LogLevel) (output : OutputFunc)
    (level : LogLevel) (message : string) (additionalInfo : list InfoMap)
    (w : World) :
  Logger.outputs l = [LevelFilterOutput minLevel output] →
  let format := formatMessage l level message (infoOf additionalInfo) in
  (Logger.level l ≤ minLevel →
     Log l level message additionalInfo w
     = Log (Logger.set_outputs [output] l) level message additionalInfo w)
  ∧ (level ≤ Logger.level l → minLevel < level →
       Log l level message additionalInfo w = (tt, exec format w)
       ∧ (Logger.formatCallback l = None →
            reads (exec (Log l level message additionalInfo) w) = S (reads w)))
  ∧ (Logger.level l < level → Log l level message additionalInfo w = (tt, w)).
Proof.
  intros Houts format. rewrite !Log_run. unfold outputMessage.
  rewrite Houts, formatMessage_set_outputs. fold format.
  assert (Logger.level (Logger.set_outputs [output] l) = Logger.level l)
    as -> by (by destruct l).
  split; [|split].
  - intros Hle. destruct (Z.leb_spec level (Logger.level l)); [|done].
    cbn [Logger.outputs Logger.set_outputs forEach].
    rewrite !run_bind. unfold eval at 1, exec at 1.
    rewrite LevelFilterOutput_run, bool_decide_eq_true_2 by lia. done.
  - intros Hle Hgt. rewrite (proj2 (Z.leb_le _ _)) by done.
    assert (forEach [LevelFilterOutput minLevel output]
              (λ output0, output0 level (eval format w)) (exec format w)
            = (tt, exec format w)) as Hrun.
    { cbn [forEach]. rewrite run_bind. unfold exec at 1.
      rewrite LevelFilterOutput_run, bool_decide_eq_false_2 by lia. done. }
    split; [done|]. intros Hcb. unfold exec at 1.
    rewrite Log_run, (proj2 (Z.leb_le _ _)) by done.
    unfold outputMessage. rewrite Houts. fold format. rewrite Hrun.
    subst format. unfold exec. by rewrite formatMessage_builtin.
  - intros Hgt. by rewrite (proj2 (Z.leb_gt _ _)) by done.
Qed.

Lemma X12_logger_threshold_before_sink_filter_witness :
  let l := Logger.mk Debug StringOutput None
             [LevelFilterOutput Error ConsoleOutput] "filtered" in
  Logger.outputs l = [LevelFilterOutput Error ConsoleOutput]
  ∧ (Logger.level l < 9 → Log l 9 "m" [] (initial "T") = (tt, initial "T")).
Proof.
  intros l. split; [reflexivity|].
  exact (proj2 (proj2 (X12_logger_threshold_before_sink_filter l Error
                         ConsoleOutput 9 "m" [] (initial "T") eq_refl))).
Defined.

(** ** Readings of the clock *)

Lemma timeless_forEach (outs : list OutputFunc) (level : LogLevel)
    (message : string) (w : World) :
  Forall timelessSink outs →
  clock (exec (forEach outs (λ output, output level message)) w) = clock w
  ∧ reads (exec (forEach outs (λ output, output level message)) w) = reads w.
Proof.
  intros Hall. revert w.
  induction Hall as [|out outs Hout _ IH]; intros w; [done|].
  cbn [forEach]. rewrite exec_bind.
  destruct (IH (exec (out level message) w)) as [-> ->]. apply Hout.
Qed.

Lemma timeless_ConsoleOutput : timelessSink ConsoleOutput.
Proof.
  intros level message w. unfold exec. rewrite ConsoleOutput_run.
  by case_bool_decide.
Qed.

(** X13: with the built-in formats, a logger reads the clock once for each
    call that passes its threshold and never for a call that does not:
    over any sequence of calls, the number of readings grows by the number
    of calls that pass (the sinks being ones that do not read the clock
    themselves). *)
Theorem X13_clock_read_once_per_emitted_call
    (l : Logger.t) (cs : list LogCall) (w : World) :
  Logger.formatCallback l = None →
  Forall timelessSink (Logger.outputs l) →
  reads (exec (runCalls l cs) w)
  = (reads w + length (filter (λ c : LogCall, (c.1.1 ≤ Logger.level l)%Z) cs))%nat
  ∧ clock (exec (runCalls l cs) w) = clock w.
Proof.
  intros Hcb Hall. unfold runCalls. revert w.
  induction cs as [|[[lv msg] ci] cs IH]; intros w.
  - cbn. split; [lia|done].
  - cbn [forEach]. rewrite exec_bind. cbn [fst snd].
    destruct (IH (exec (Log l lv msg ci) w)) as [-> ->].
    rewrite filter_cons. cbn [fst].
    rewrite exec_Log.
    destruct (Z.leb_spec lv (Logger.level l)) as [Hle|Hgt].
    + rewrite decide_True by done. unfold outputMessage.
      destruct (timeless_forEach (Logger.outputs l) lv
                  (eval (formatMessage l lv msg (infoOf ci)) w)
                  (exec (formatMessage l lv msg (infoOf ci)) w) Hall)
        as [-> ->].
      unfold exec at 1 2. rewrite formatMessage_builtin by done.
      cbn [snd reads clock length]. split; [lia|done].
    + rewrite decide_False by lia. done.
Qed.

Lemma X13_clock_read_once_per_emitted_call_witness :
  let l := Logger.mk Error StringOutput None [ConsoleOutput] "svc" in
  let cs : list LogCall :=
    [(Debug, "a", []); (Error, "b", []); (Emergency, "c", [None])] in
  Logger.formatCallback l = None
  ∧ Forall timelessSink (Logger.outputs l)
  ∧ reads (exec (runCalls l cs) (initial "T"))
    = (reads (initial "T")
       + length (filter (λ c : LogCall, (c.1.1 ≤ Logger.level l)%Z) cs))%nat.
Proof.
  intros l cs.
  assert (Forall timelessSink (Logger.outputs l)) as Hs
    by (repeat constructor; apply timeless_ConsoleOutput).
  split; [reflexivity|]. split; [exact Hs|].
  exact (proj1 (X13_clock_read_once_per_emitted_call l cs (initial "T")
                  eq_refl Hs)).
Defined.

(** ** The choice of the format *)

(** X14: the format option is compared with the one string [json]: every
    other value, such as [JSON] in capitals or an unknown name, selects the
    text format, so two loggers with the same prefix and formats other than
    [json] format alike; and leaving the format out is the same as asking
    for [string]. *)
Theorem X14_only_json_selects_JSON
    (l1 l2 : Logger.t) (level : LogLevel) (message : string) (info : InfoMap)
    (w : World) :
  Logger.formatCallback l1 = None →
  Logger.formatCallback l2 = None →
  Logger.prefix l1 = Logger.prefix l2 →
  Logger.format l1 ≠ JSONOutput →
  Logger.format l2 ≠ JSONOutput →
  formatMessage l1 level message info w = formatMessage l2 level message info w
  ∧ eval (formatMessage l1 level message info) w
    = textLine (Logger.prefix l1) (clock w (reads w)) (LogLevel_String level)
               message info
  ∧ (∀ lv cb outs pfx,
       NewLogger (LogOptions.mk lv EmptyString cb outs pfx)
       = NewLogger (LogOptions.mk lv StringOutput cb outs pfx)).
Proof.
  intros Hc1 Hc2 Hp Hf1 Hf2. unfold eval.
  rewrite !formatMessage_builtin by done. rewrite Hp.
  destruct (String.eqb_spec (Logger.format l1) JSONOutput); [done|].
  destruct (String.eqb_spec (Logger.format l2) JSONOutput); [done|].
  split; [done|]. split; [done|].
  intros lv cb outs pfx. unfold NewLogger.
  cbn [LogOptions.Level LogOptions.Format LogOptions.FormatCallback
       LogOptions.Outputs LogOptions.Prefix Logger.level].
  destruct ((lv <? Emergency) || (lv >? Debug)); reflexivity.
Qed.

Lemma X14_only_json_selects_JSON_witness :
  let l1 := Logger.mk Debug "JSON" None [ConsoleOutput] "p" in
  let l2 := Logger.mk Info StringOutput None [] "p" in
  Logger.formatCallback l1 = None
  ∧ Logger.formatCallback l2 = None
  ∧ Logger.prefix l1 = Logger.prefix l2
  ∧ Logger.format l1 ≠ JSONOutput
  ∧ Logger.format l2 ≠ JSONOutput
  ∧ formatMessage l1 Info "m" None (initial "T")
    = formatMessage l2 Info "m" None (initial "T").
Proof.
  intros l1 l2.
  assert (Logger.format l1 ≠ JSONOutput) as H1 by discriminate.
  assert (Logger.format l2 ≠ JSONOutput) as H2 by discriminate.
  split; [reflexivity|]. split; [reflexivity|]. split; [reflexivity|].
  split; [exact H1|]. split; [exact H2|].
  exact (proj1 (X14_only_json_selects_JSON l1 l2 Info "m" None (initial "T")
                  eq_refl eq_refl eq_refl H1 H2)).
Defined.

(** ** Loggers at work *)

Lemma NewLogger_outputs_default (options : LogOptions.t) :
  LogOptions.Outputs options = [] →
  Logger.outputs (NewLogger options) = [defaultConsoleOutput].
Proof.
  destruct options as [lv fmt cb outs pfx]. cbn. intros ->.
  unfold NewLogger.
  cbn [LogOptions.Level LogOptions.Format LogOptions.FormatCallback
       LogOptions.Outputs LogOptions.Prefix Logger.level].
  destruct ((lv <? Emergency) || (lv >? Debug)); cbn;
    destruct (String.eqb fmt EmptyString); reflexivity.
Qed.

Lemma defaultConsoleOutput_run (level : LogLevel) (message : string)
    (w : World) :
  defaultConsoleOutput level message w
  = (tt,
     if bool_decide (level ≤ Error)
     then mkWorld (clock w) (reads w) (stdout w)
                  (stderr w +:+ (message +:+ newline))
                  (files w) (blocked w) (opened w) (events w)
     else mkWorld (clock w) (reads w)
                  (stdout w +:+ (message +:+ newline)) (stderr w)
                  (files w) (blocked w) (opened w) (events w)).
Proof.
  unfold defaultConsoleOutput. destruct (Z.leb_spec level Error).
  - by rewrite bool_decide_eq_true_2.
  - rewrite bool_decide_eq_false_2; [done|lia].
Qed.

(** X15: a logger built without sinks and without a callback writes to the
    console and nowhere else: a message that passes the threshold adds its
    formatted line and a newline to standard-error when its level is at
    most [Error] and to standard-output otherwise, a message that does not
    pass adds nothing, and no file is touched. *)
Theorem X15_default_logger_writes_to_console
    (options : LogOptions.t) (level : LogLevel) (message : string)
    (additionalInfo : list InfoMap) (w : World) :
  LogOptions.Outputs options = [] →
  LogOptions.FormatCallback options = None →
  let l := NewLogger options in
  let line := eval (formatMessage l level message (infoOf additionalInfo)) w in
  let w' := exec (Log l level message additionalInfo) w in
  stderr w'
  = (if bool_decide (level ≤ Logger.level l ∧ level ≤ Error)
     then stderr w +:+ line +:+ newline else stderr w)
  ∧ stdout w'
    = (if bool_decide (level ≤ Logger.level l ∧ Error < level)
       then stdout w +:+ line +:+ newline else stdout w)
  ∧ files w' = files w ∧ opened w' = opened w ∧ events w' = events w.
Proof.
  intros Houts Hcb l line w'.
  assert (Logger.formatCallback l = None) as Hl
    by (subst l; by rewrite NewLogger_formatCallback).
  assert (Logger.outputs l = [defaultConsoleOutput]) as Ho
    by (subst l; by apply NewLogger_outputs_default).
  subst w'. rewrite exec_Log. fold line.
  destruct (Z.leb_spec level (Logger.level l)) as [Hle|Hgt].
  - unfold outputMessage. rewrite Ho. cbn [forEach].
    rewrite exec_bind, exec_ret.
    unfold exec. rewrite formatMessage_builtin by done. cbn [snd].
    rewrite !defaultConsoleOutput_run. cbn [snd].
    destruct (decide (level ≤ Error)) as [He|He].
    + rewrite (bool_decide_eq_true_2 (level ≤ Error)) by done.
      rewrite bool_decide_eq_true_2 by done.
      rewrite bool_decide_eq_false_2 by lia.
      cbn [stderr stdout files opened events]. done.
    + rewrite (bool_decide_eq_false_2 (level ≤ Error)) by done.
      rewrite bool_decide_eq_false_2 by lia.
      rewrite bool_decide_eq_true_2 by lia.
      cbn [stderr stdout files opened events]. done.
  - rewrite !bool_decide_eq_false_2 by lia. done.
Qed.

Lemma X15_default_logger_writes_to_console_witness :
  LogOptions.Outputs LogOptions.zero = []
  ∧ LogOptions.FormatCallback LogOptions.zero = None
  ∧ stderr (exec (Log (NewLogger LogOptions.zero) Emergency "m" [])
                 (initial "T"))
    = "[T] [EMERGENCY] m" +:+ newline.
Proof.
  split; [reflexivity|]. split; [reflexivity|].
  exact (proj1 (X15_default_logger_writes_to_console LogOptions.zero
                  Emergency "m" [] (initial "T") eq_refl eq_refl)).
Defined.

Lemma FileOutput_ok (filename : string) (w : World) :
  blocked w !! filename = None →
  let w1 := exec (FileOutput filename) w in
  eval (FileOutput filename) w
  = (Some (WriterOutput (os_File filename)), None)
  ∧ blocked w1 = blocked w
  ∧ files w1 !! filename = Some (default EmptyString (files w !! filename))
  ∧ (∀ other, filename ≠ other → files w1 !! other = files w !! other)
  ∧ stdout w1 = stdout w ∧ stderr w1 = stderr w.
Proof.
  intros Hb w1. subst w1. unfold eval, exec. rewrite FileOutput_run, Hb.
  cbn. split; [done|]. split; [done|].
  destruct (files w !! filename) as [c|] eqn:Hc.
  - by rewrite Hc.
  - rewrite lookup_insert_eq. split; [done|]. split; [|done].
    intros other Hne. by rewrite lookup_insert_ne.
Qed.

Lemma exampleFileSink_files (a b : string) (level : LogLevel)
    (message : string) (w : World) :
  let w' := exec (exampleFileSink (WriterOutput (os_File a))
                    (WriterOutput (os_File b)) level message) w in
  files w'
  = alter (λ old, old +:+ (message +:+ newline))
          (if bool_decide (level ≤ Error) then a else b) (files w)
  ∧ stdout w' = stdout w ∧ stderr w' = stderr w.
Proof.
  unfold exampleFileSink. destruct (Z.leb_spec level Error).
  - by rewrite bool_decide_eq_true_2.
  - rewrite bool_decide_eq_false_2; [done|lia].
Qed.

Lemma formatMessage_builtin_frame (l : Logger.t) (level : LogLevel)
    (message : string) (info : InfoMap) (w : World) :
  Logger.formatCallback l = None →
  let w' := exec (formatMessage l level message info) w in
  files w' = files w ∧ stdout w' = stdout w ∧ stderr w' = stderr w.
Proof. intros Hcb. unfold exec. by rewrite formatMessage_builtin. Qed.

(** X16: the file logger of the basic example.  With both files opened
    (the one for standard output first, as the example does), a message of
    level at most [Error] is appended as one line to the error file and
    leaves the other file alone, a message of any other level up to [Debug]
    is appended to the output file and leaves the error file alone, a
    message above [Debug] is dropped, and the console gets nothing. *)
Theorem X16_example_file_logger_routes_by_level
    (pOut pErr : string) (level : LogLevel) (message : string)
    (additionalInfo : list InfoMap) (w : World) :
  blocked w !! pOut = None →
  blocked w !! pErr = None →
  pOut ≠ pErr →
  let w1 := exec (FileOutput pOut) w in
  let w2 := exec (FileOutput pErr) w1 in
  ∃ stdoutFile stderrFile oldOut oldErr,
    (eval (FileOutput pOut) w).1 = Some stdoutFile
    ∧ (eval (FileOutput pErr) w1).1 = Some stderrFile
    ∧ files w2 !! pOut = Some oldOut
    ∧ files w2 !! pErr = Some oldErr
    ∧ oldOut = default EmptyString (files w !! pOut)
    ∧ oldErr = default EmptyString (files w !! pErr)
    ∧ let l := exampleFileLogger stderrFile stdoutFile in
      let line :=
        eval (formatMessage l level message (infoOf additionalInfo)) w2 in
      let w3 := exec (Log l level message additionalInfo) w2 in
      (level ≤ Error →
         files w3 !! pErr = Some (oldErr +:+ line +:+ newline)
         ∧ files w3 !! pOut = Some oldOut)
      ∧ (Error < level ≤ Debug →
           files w3 !! pOut = Some (oldOut +:+ line +:+ newline)
           ∧ files w3 !! pErr = Some oldErr)
      ∧ (Debug < level → w3 = w2)
      ∧ stdout w3 = stdout w2 ∧ stderr w3 = stderr w2.
Proof.
  intros HbOut HbErr Hne w1 w2.
  destruct (FileOutput_ok pOut w HbOut) as (H1 & Hb1 & Hf1 & Hf1' & _).
  fold w1 in H1, Hb1, Hf1, Hf1'.
  assert (blocked w1 !! pErr = None) as HbErr1 by (by rewrite Hb1).
  destruct (FileOutput_ok pErr w1 HbErr1) as (H2 & _ & Hf2 & Hf2' & _).
  fold w2 in H2, Hf2, Hf2'.
  rewrite Hf1' in Hf2 by done.
  specialize (Hf2' pOut (not_eq_sym Hne)). rewrite Hf1 in Hf2'.
  exists (WriterOutput (os_File pOut)), (WriterOutput (os_File pErr)).
  exists (default EmptyString (files w !! pOut)).
  exists (default EmptyString (files w !! pErr)).
  split; [by rewrite H1|].
  split; [by rewrite H2|].
  split; [done|]. split; [done|]. split; [done|]. split; [done|].
  intros l line w3.
  assert (Logger.formatCallback l = None) as Hcb by reflexivity.
  assert (Logger.level l = Debug) as Hlv by reflexivity.
  assert (Logger.outputs l
          = [exampleFileSink (WriterOutput (os_File pErr))
                             (WriterOutput (os_File pOut))]) as Ho
    by reflexivity.
  assert (Debug < level → w3 = w2) as Hdrop.
  { intros Hgt. subst w3. rewrite exec_Log, Hlv.
    by rewrite (proj2 (Z.leb_gt _ _)) by done. }
  assert (level ≤ Debug →
          w3 = exec (exampleFileSink (WriterOutput (os_File pErr))
                       (WriterOutput (os_File pOut)) level line)
                    (exec (formatMessage l level message
                             (infoOf additionalInfo)) w2)) as Hemit.
  { intros Hle. subst w3. rewrite exec_Log, Hlv.
    rewrite (proj2 (Z.leb_le _ _)) by done.
    unfold outputMessage. rewrite Ho. cbn [forEach].
    by rewrite exec_bind, exec_ret. }
  destruct (formatMessage_builtin_frame l level message
              (infoOf additionalInfo) w2 Hcb) as (Hff & Hfo & Hfe).
  split; [|split; [|split; [done|]]].
  - intros He. rewrite Hemit by (unfold Error, Debug in *; lia).
    destruct (exampleFileSink_files pErr pOut level line
                (exec (formatMessage l level message (infoOf additionalInfo)) w2))
      as (-> & _ & _).
    rewrite bool_decide_eq_true_2, Hff by done.
    rewrite lookup_alter_eq, lookup_alter_ne, Hf2, Hf2' by done.
    split; [cbn; by string_norm|done].
  - intros [He Hle]. rewrite Hemit by done.
    destruct (exampleFileSink_files pErr pOut level line
                (exec (formatMessage l level message (infoOf additionalInfo)) w2))
      as (-> & _ & _).
    rewrite bool_decide_eq_false_2, Hff by lia.
    rewrite lookup_alter_eq, lookup_alter_ne, Hf2, Hf2' by done.
    split; [cbn; by string_norm|done].
  - destruct (Z.le_gt_cases level Debug) as [Hle|Hgt].
    + rewrite Hemit by done.
      destruct (exampleFileSink_files pErr pOut level line
                  (exec (formatMessage l level message (infoOf additionalInfo)) w2))
        as (_ & -> & ->).
      by rewrite Hfo, Hfe.
    + by rewrite Hdrop by lia.
Qed.

Lemma X16_example_file_logger_routes_by_level_witness :
  blocked (initial "T") !! "./stdout.log" = None
  ∧ blocked (initial "T") !! "./stderr.log" = None
  ∧ "./stdout.log" ≠ "./stderr.log"
  ∧ ∃ stdoutFile stderrFile,
      (eval (FileOutput "./stdout.log") (initial "T")).1 = Some stdoutFile
      ∧ (eval (FileOutput "./stderr.log")
              (exec (FileOutput "./stdout.log") (initial "T"))).1
        = Some stderrFile.
Proof.
  assert ("./stdout.log" ≠ "./stderr.log") as Hne by discriminate.
  split; [reflexivity|]. split; [reflexivity|]. split; [exact Hne|].
  destruct (X16_example_file_logger_routes_by_level "./stdout.log"
              "./stderr.log" Info "This goes to stdout.log" [] (initial "T")
              eq_refl eq_refl Hne)
    as (so & se & _ & _ & H1 & H2 & _).
  exists so, se. split; [exact H1|exact H2].
Defined.

Lemma NewLogger_fields (lv : LogLevel) (fmt : LogOutput)
    (cb : option FormatFunc) (outs outs' : list OutputFunc) (pfx : string) :
  outs ≠ [] → outs' ≠ [] →
  NewLogger (LogOptions.mk lv fmt cb outs' pfx)
  = Logger.set_outputs outs' (NewLogger (LogOptions.mk lv fmt cb outs pfx)).
Proof.
  intros Hne Hne'. unfold NewLogger.
  cbn [LogOptions.Level LogOptions.Format LogOptions.FormatCallback
       LogOptions.Outputs LogOptions.Prefix Logger.level].
  destruct outs; [done|]. destruct outs'; [done|].
  destruct ((lv <? Emergency) || (lv >? Debug)); cbn;
    destruct (String.eqb fmt EmptyString); reflexivity.
Qed.

(** X17: wrapping the sinks of a logger in one multiplex sink changes
    nothing, as long as there is a sink to wrap.  The empty multiplex sink
    is different: it counts as a sink, so the logger does not fall back to
    the console and its messages, still formatted, go nowhere. *)
Theorem X17_logger_over_MultiOutput
    (lv : LogLevel) (fmt : LogOutput) (cb : option FormatFunc)
    (outs : list OutputFunc) (pfx : string)
    (level : LogLevel) (message : string) (additionalInfo : list InfoMap)
    (w : World) :
  let wrapped := NewLogger (LogOptions.mk lv fmt cb [MultiOutput outs] pfx) in
  let plain := NewLogger (LogOptions.mk lv fmt cb outs pfx) in
  let silentOne := NewLogger (LogOptions.mk lv fmt cb [MultiOutput []] pfx) in
  (outs ≠ [] →
     Log wrapped level message additionalInfo w
     = Log plain level message additionalInfo w)
  ∧ Logger.outputs silentOne ≠ [defaultConsoleOutput]
  ∧ Log silentOne level message additionalInfo w
    = (tt,
       if bool_decide (level ≤ Logger.level silentOne)
       then exec (formatMessage silentOne level message
                    (infoOf additionalInfo)) w
       else w).
Proof.
  intros wrapped plain silentOne. split; [|split].
  - intros Hne. subst wrapped plain.
    rewrite (NewLogger_fields lv fmt cb outs [MultiOutput outs] pfx)
      by done.
    set (l := NewLogger (LogOptions.mk lv fmt cb outs pfx)).
    assert (Logger.outputs l = outs) as Ho
      by (subst l; by rewrite NewLogger_outputs).
    rewrite !Log_run, formatMessage_set_outputs.
    assert (Logger.level (Logger.set_outputs [MultiOutput outs] l)
            = Logger.level l) as -> by (by destruct l).
    destruct (level <=? Logger.level l); [|done].
    unfold outputMessage. rewrite Ho.
    assert (Logger.outputs (Logger.set_outputs [MultiOutput outs] l)
            = [MultiOutput outs]) as -> by (by destruct l).
    cbn [forEach]. rewrite run_bind. unfold MultiOutput.
    symmetry. apply run_unit.
  - subst silentOne. rewrite NewLogger_outputs by done. cbn.
    intros Heq. injection Heq as Heq.
    assert (MultiOutput [] Emergency "x" (initial "T")
            = defaultConsoleOutput Emergency "x" (initial "T")) as Hrun
      by (by rewrite Heq).
    discriminate Hrun.
  - rewrite Log_run. unfold outputMessage.
    subst silentOne. rewrite (NewLogger_outputs _) by done.
    cbn [LogOptions.Outputs forEach].
    set (l := NewLogger (LogOptions.mk lv fmt cb [MultiOutput []] pfx)).
    destruct (Z.leb_spec level (Logger.level l)).
    + rewrite bool_decide_eq_true_2 by done. by rewrite run_bind.
    + rewrite bool_decide_eq_false_2 by lia. done.
Qed.

Lemma X17_logger_over_MultiOutput_witness :
  [ConsoleOutput] ≠ []
  ∧ Log (NewLogger (LogOptions.mk Debug StringOutput None
                      [MultiOutput [ConsoleOutput]] "p"))
        Info "m" [] (initial "T")
    = Log (NewLogger (LogOptions.mk Debug StringOutput None
                        [ConsoleOutput] "p"))
          Info "m" [] (initial "T").
Proof.
  assert ([ConsoleOutput] ≠ []) as Hne by discriminate.
  split; [exact Hne|].
  exact (proj1 (X17_logger_over_MultiOutput Debug StringOutput None
                  [ConsoleOutput] "p" Info "m" [] (initial "T")) Hne).
Defined.
